(** * AT89S52 buzzer controller: pattern sweep engine and debounced inputs

    A shallow embedding of [AT89S52-Buzzer1.c], the SDCC build of the
    program; the Keil build differs in its pin declarations and in how it
    writes the complementary buzzer pin, not in the code modelled here.  The
    target is an 8051: [int] and [unsigned int] are 16 bits wide, [long] is
    32 bits wide, [uint8_t] is promoted to [int] in arithmetic, and an [int]
    operand is converted to [unsigned int] when it meets a [uint16_t].

    Globals and function-local [static] variables become fields of one
    [State] record that every function threads through.  Port pins that the
    program reads (the four buttons) are inputs of a main-loop iteration;
    port pins that it writes (the buzzer pair) are fields of the state.  The
    status LEDs and the timer-0 interrupt only write pins of their own and are
    left out. *)

From Stdlib Require Import ZArith List Bool Lia ZifyBool.
Import ListNotations.
Open Scope Z_scope.

(** ** Machine integers *)

Module Word.

(** Conversion to [uint8_t]. *)
Definition u8 (z : Z) : Z := z mod 256.

(** Conversion to [uint16_t] / [unsigned int]. *)
Definition u16 (z : Z) : Z := z mod 65536.

(** Two's-complement reading of a 16-bit [int]. *)
Definition s16 (z : Z) : Z := (z + 32768) mod 65536 - 32768.

(** Two's-complement reading of a 32-bit [long]; the compilers for this
    target wrap on signed overflow. *)
Definition s32 (z : Z) : Z := (z + 2147483648) mod 4294967296 - 2147483648.

End Word.
Import Word.

(** ** Constant tables *)

(** [rangeParams[2][3]]: one row [min, max, initial] per band. *)
Definition rangeParams : list (list Z) := [[25; 50; 37]; [9; 18; 13]].

(** [speedSteps[5]]. *)
Definition speedSteps : list Z := [1; 2; 3; 5; 8].

(** A [__bit] used as an array index. *)
Definition bit_index (b : bool) : nat := if b then 1%nat else 0%nat.

(** [rangeParams[r][j]]. *)
Definition rangeParam (r : bool) (j : nat) : Z :=
  nth j (nth (bit_index r) rangeParams []) 0.

(** [speedSteps[i]]; the main loop keeps the index below 5. *)
Definition speedStep (i : Z) : Z := nth (Z.to_nat i) speedSteps 0.

(** ** Program state *)

(** The [static] variables of [update_sweep]. *)
Record SweepMem : Set := mkSweepMem {
  pulseCount : Z;
  stepCount  : Z;
  freqStep   : Z;
  hbCount    : Z;
  sirenCount : Z;
  chirpState : Z;
  chirpCount : Z;
  walkCount  : Z
}.

(** The [static lastState] of the four [checkButton_*] functions. *)
Record Buttons : Set := mkButtons {
  last_PWR : bool;
  last_PAT : bool;
  last_SPD : bool;
  last_RNG : bool
}.

Record State : Set := mkState {
  isActive         : bool;
  currentRange     : bool;
  currentPattern   : Z;
  currentSpeed     : Z;
  sweepDirection   : bool;
  currentFreqDelay : Z;
  seed             : Z;      (* static of simple_rand *)
  toneCounter      : Z;      (* static of generate_tone *)
  mem              : SweepMem;
  buttons          : Buttons;
  BUZZER           : bool;
  BUZZER_COMP      : bool
}.

(** Field updates. *)
Definition set_isActive (v : bool) (s : State) : State :=
  mkState v (currentRange s) (currentPattern s) (currentSpeed s)
    (sweepDirection s) (currentFreqDelay s) (seed s) (toneCounter s) (mem s)
    (buttons s) (BUZZER s) (BUZZER_COMP s).
Definition set_currentRange (v : bool) (s : State) : State :=
  mkState (isActive s) v (currentPattern s) (currentSpeed s)
    (sweepDirection s) (currentFreqDelay s) (seed s) (toneCounter s) (mem s)
    (buttons s) (BUZZER s) (BUZZER_COMP s).
Definition set_currentPattern (v : Z) (s : State) : State :=
  mkState (isActive s) (currentRange s) v (currentSpeed s)
    (sweepDirection s) (currentFreqDelay s) (seed s) (toneCounter s) (mem s)
    (buttons s) (BUZZER s) (BUZZER_COMP s).
Definition set_currentSpeed (v : Z) (s : State) : State :=
  mkState (isActive s) (currentRange s) (currentPattern s) v
    (sweepDirection s) (currentFreqDelay s) (seed s) (toneCounter s) (mem s)
    (buttons s) (BUZZER s) (BUZZER_COMP s).
Definition set_sweepDirection (v : bool) (s : State) : State :=
  mkState (isActive s) (currentRange s) (currentPattern s) (currentSpeed s)
    v (currentFreqDelay s) (seed s) (toneCounter s) (mem s)
    (buttons s) (BUZZER s) (BUZZER_COMP s).
Definition set_currentFreqDelay (v : Z) (s : State) : State :=
  mkState (isActive s) (currentRange s) (currentPattern s) (currentSpeed s)
    (sweepDirection s) v (seed s) (toneCounter s) (mem s)
    (buttons s) (BUZZER s) (BUZZER_COMP s).
Definition set_seed (v : Z) (s : State) : State :=
  mkState (isActive s) (currentRange s) (currentPattern s) (currentSpeed s)
    (sweepDirection s) (currentFreqDelay s) v (toneCounter s) (mem s)
    (buttons s) (BUZZER s) (BUZZER_COMP s).
Definition set_toneCounter (v : Z) (s : State) : State :=
  mkState (isActive s) (currentRange s) (currentPattern s) (currentSpeed s)
    (sweepDirection s) (currentFreqDelay s) (seed s) v (mem s)
    (buttons s) (BUZZER s) (BUZZER_COMP s).
Definition set_mem (v : SweepMem) (s : State) : State :=
  mkState (isActive s) (currentRange s) (currentPattern s) (currentSpeed s)
    (sweepDirection s) (currentFreqDelay s) (seed s) (toneCounter s) v
    (buttons s) (BUZZER s) (BUZZER_COMP s).
Definition set_buttons (v : Buttons) (s : State) : State :=
  mkState (isActive s) (currentRange s) (currentPattern s) (currentSpeed s)
    (sweepDirection s) (currentFreqDelay s) (seed s) (toneCounter s) (mem s)
    v (BUZZER s) (BUZZER_COMP s).
Definition set_BUZZER (v : bool) (s : State) : State :=
  mkState (isActive s) (currentRange s) (currentPattern s) (currentSpeed s)
    (sweepDirection s) (currentFreqDelay s) (seed s) (toneCounter s) (mem s)
    (buttons s) v (BUZZER_COMP s).
Definition set_BUZZER_COMP (v : bool) (s : State) : State :=
  mkState (isActive s) (currentRange s) (currentPattern s) (currentSpeed s)
    (sweepDirection s) (currentFreqDelay s) (seed s) (toneCounter s) (mem s)
    (buttons s) (BUZZER s) v.

Definition set_pulseCount (v : Z) (m : SweepMem) : SweepMem :=
  mkSweepMem v (stepCount m) (freqStep m) (hbCount m) (sirenCount m)
    (chirpState m) (chirpCount m) (walkCount m).
Definition set_stepCount (v : Z) (m : SweepMem) : SweepMem :=
  mkSweepMem (pulseCount m) v (freqStep m) (hbCount m) (sirenCount m)
    (chirpState m) (chirpCount m) (walkCount m).
Definition set_freqStep (v : Z) (m : SweepMem) : SweepMem :=
  mkSweepMem (pulseCount m) (stepCount m) v (hbCount m) (sirenCount m)
    (chirpState m) (chirpCount m) (walkCount m).
Definition set_hbCount (v : Z) (m : SweepMem) : SweepMem :=
  mkSweepMem (pulseCount m) (stepCount m) (freqStep m) v (sirenCount m)
    (chirpState m) (chirpCount m) (walkCount m).
Definition set_sirenCount (v : Z) (m : SweepMem) : SweepMem :=
  mkSweepMem (pulseCount m) (stepCount m) (freqStep m) (hbCount m) v
    (chirpState m) (chirpCount m) (walkCount m).
Definition set_chirpState (v : Z) (m : SweepMem) : SweepMem :=
  mkSweepMem (pulseCount m) (stepCount m) (freqStep m) (hbCount m)
    (sirenCount m) v (chirpCount m) (walkCount m).
Definition set_chirpCount (v : Z) (m : SweepMem) : SweepMem :=
  mkSweepMem (pulseCount m) (stepCount m) (freqStep m) (hbCount m)
    (sirenCount m) (chirpState m) v (walkCount m).
Definition set_walkCount (v : Z) (m : SweepMem) : SweepMem :=
  mkSweepMem (pulseCount m) (stepCount m) (freqStep m) (hbCount m)
    (sirenCount m) (chirpState m) (chirpCount m) v.

(** Update of one [static] of [update_sweep] inside the whole state. *)
Definition upd_mem (f : SweepMem -> SweepMem) (s : State) : State :=
  set_mem (f (mem s)) s.

(** ** [simple_rand] *)

(** One step of the generator on its [static uint16_t seed].  The product
    and the sum are computed in [long] (the constant 1103515245 has type
    [long]), [%] is C's truncating remainder, and the assignment converts the
    result back to [uint16_t]. *)
Definition rand_next (sd : Z) : Z :=
  u16 (Z.rem (s32 (s32 (sd * 1103515245) + 12345)) 32768).

(** [simple_rand()]: the returned byte and the state with the new seed. *)
Definition simple_rand (s : State) : Z * State :=
  let sd := rand_next (seed s) in
  (u8 (Z.land sd 255), set_seed sd s).

(** ** [checkButton_*] *)

(** The four button functions are the same code on four pins.  A call reads
    its pin once ([first]); only when that level differs from [lastState]
    does it wait 20 ms and read the pin again ([again]). *)
Record Sample : Set := mkSample { first : bool; again : bool }.

Record Poll : Set := mkPoll {
  poll_last  : bool;   (* lastState after the call *)
  poll_event : bool;   (* returned __bit *)
  poll_wait  : Z       (* milliseconds spent in delay_ms *)
}.

Definition checkButton (lastState : bool) (pin : Sample) : Poll :=
  let current := first pin in
  if negb (eqb current lastState) then
    if eqb (again pin) current
    then mkPoll current (negb current) 20
    else mkPoll lastState false 20
  else mkPoll lastState false 0.

(** ** [generate_tone] *)

Definition generate_tone (s : State) : State :=
  let c := u16 (toneCounter s + 1) in
  if c >=? currentFreqDelay s then
    set_BUZZER_COMP (negb (BUZZER_COMP s))
      (set_BUZZER (negb (BUZZER s)) (set_toneCounter 0 s))
  else set_toneCounter c s.

(** ** [update_sweep] *)

(** The two locals and the table read that every case shares. *)
Definition minDelay (s : State) : Z := rangeParam (currentRange s) 0.
Definition maxDelay (s : State) : Z := rangeParam (currentRange s) 1.
Definition step (s : State) : Z := speedStep (currentSpeed s).

(** [case 0]: Up Sweep. *)
Definition up_sweep (s : State) : State :=
  if currentFreqDelay s >? minDelay s
  then set_currentFreqDelay (u16 (currentFreqDelay s - step s)) s
  else set_currentFreqDelay (maxDelay s) s.

(** [case 1]: Down Sweep. *)
Definition down_sweep (s : State) : State :=
  if currentFreqDelay s <? maxDelay s
  then set_currentFreqDelay (u16 (currentFreqDelay s + step s)) s
  else set_currentFreqDelay (minDelay s) s.

(** [case 2]: Zig-Zag. *)
Definition zig_zag (s : State) : State :=
  if sweepDirection s then
    if currentFreqDelay s <? maxDelay s
    then set_currentFreqDelay (u16 (currentFreqDelay s + step s)) s
    else set_sweepDirection false s
  else
    if currentFreqDelay s >? minDelay s
    then set_currentFreqDelay (u16 (currentFreqDelay s - step s)) s
    else set_sweepDirection true s.

(** [case 3]: Random.  The second draw happens only when the first one is
    below 20. *)
Definition random (s : State) : State :=
  let (r1, s1) := simple_rand s in
  if r1 <? 20 then
    let (r2, s2) := simple_rand s1 in
    set_currentFreqDelay
      (u16 (minDelay s + r2 mod u16 (maxDelay s - minDelay s + 1))) s2
  else s1.

(** [case 4]: Pulse.  Writes the buzzer pin itself. *)
Definition pulse (s : State) : State :=
  let c := u16 (pulseCount (mem s) + 1) in
  let c := if c >=? 500 then 0 else c in
  set_BUZZER (c <? 50) (upd_mem (set_pulseCount c) s).

(** [case 5]: Stepped. *)
Definition stepped (s : State) : State :=
  let c := u16 (stepCount (mem s) + 1) in
  if c >=? 100 then
    set_currentFreqDelay
      (u16 (minDelay s +
            u16 (currentFreqDelay s + step s - minDelay s)
              mod u16 (maxDelay s - minDelay s + 1)))
      (upd_mem (set_stepCount 0) s)
  else upd_mem (set_stepCount c) s.

(** [case 6]: Triangle.  [freqStep] is an [int16_t]; its product with the
    step is an [int], added to the [uint16_t] period modulo 65536. *)
Definition triangle (s : State) : State :=
  let p := u16 (currentFreqDelay s + s16 (freqStep (mem s) * step s)) in
  let s1 := set_currentFreqDelay p s in
  if (p <=? minDelay s) || (p >=? maxDelay s)
  then upd_mem (set_freqStep (s16 (- freqStep (mem s)))) s1
  else s1.

(** [case 7]: Heartbeat. *)
Definition heartbeat (s : State) : State :=
  let c := u16 (hbCount (mem s) + 1) in
  let c := if c >=? 600 then 0 else c in
  let s1 := upd_mem (set_hbCount c) s in
  if c <? 100 then set_currentFreqDelay (u16 (minDelay s + 2)) s1
  else if c <? 150 then set_currentFreqDelay (maxDelay s) s1
  else if c <? 250 then set_currentFreqDelay (u16 (minDelay s + 1)) s1
  else set_currentFreqDelay (maxDelay s) s1.

(** The conditional expression of the Siren case:
    [(currentFreqDelay == minDelay) ? maxDelay : minDelay]. *)
Definition siren_toggle (lo hi p : Z) : Z := if p =? lo then hi else lo.

(** [case 8]: Siren. *)
Definition siren (s : State) : State :=
  let c := u16 (sirenCount (mem s) + 1) in
  if c >=? 100 then
    set_currentFreqDelay
      (siren_toggle (minDelay s) (maxDelay s) (currentFreqDelay s))
      (upd_mem (set_sirenCount 0) s)
  else upd_mem (set_sirenCount c) s.

(** [case 9]: Chirps.  [speedSteps[currentSpeed]*3] is an [int]; the
    subtraction from the [uint16_t] period is modulo 65536. *)
Definition chirps (s : State) : State :=
  if chirpState (mem s) =? 0 then
    if currentFreqDelay s >? minDelay s
    then set_currentFreqDelay (u16 (currentFreqDelay s - s16 (step s * 3))) s
    else upd_mem (set_chirpState 1) s
  else
    let c := u16 (chirpCount (mem s) + 1) in
    if c >? 300 then
      set_currentFreqDelay (maxDelay s)
        (upd_mem (fun m => set_chirpState 0 (set_chirpCount 0 m)) s)
    else upd_mem (set_chirpCount c) s.

(** [case 10]: Random Walk.  [(simple_rand() % 5) - 2] is an [int] between
    -2 and 2, added to the period modulo 65536 before the two clamps. *)
Definition random_walk (s : State) : State :=
  let c := u16 (walkCount (mem s) + 1) in
  if c >=? 20 then
    let (r, s1) := simple_rand (upd_mem (set_walkCount 0) s) in
    let p1 := u16 (currentFreqDelay s + (r mod 5 - 2)) in
    let p2 := if p1 <? minDelay s then minDelay s else p1 in
    let p3 := if p2 >? maxDelay s then maxDelay s else p2 in
    set_currentFreqDelay p3 s1
  else upd_mem (set_walkCount c) s.

(** The [switch(currentPattern)]; it has no [default]. *)
Definition update_sweep (s : State) : State :=
  match currentPattern s with
  | 0 => up_sweep s
  | 1 => down_sweep s
  | 2 => zig_zag s
  | 3 => random s
  | 4 => pulse s
  | 5 => stepped s
  | 6 => triangle s
  | 7 => heartbeat s
  | 8 => siren s
  | 9 => chirps s
  | 10 => random_walk s
  | _ => s
  end.

(** ** [main] *)

(** The four pins sampled by one pass of the main loop. *)
Record Inputs : Set := mkInputs {
  BTN_POWER   : Sample;
  BTN_PATTERN : Sample;
  BTN_SPEED   : Sample;
  BTN_RANGE   : Sample
}.

(** Body of [if(checkButton_PWR()) {...}]. *)
Definition on_power (s : State) : State :=
  let s1 := set_isActive (negb (isActive s)) s in
  if negb (isActive s1) then set_BUZZER false s1 else s1.

(** Body of [if(checkButton_PAT()) {...}]. *)
Definition on_pattern (s : State) : State :=
  let n := u8 (currentPattern s + 1) in
  set_currentPattern (if n >=? 11 then 0 else n) s.

(** Body of [if(checkButton_SPD()) {...}]. *)
Definition on_speed (s : State) : State :=
  let n := u8 (currentSpeed s + 1) in
  set_currentSpeed (if n >=? 5 then 0 else n) s.

(** Body of [if(checkButton_RNG()) {...}]. *)
Definition on_range (s : State) : State :=
  let r := negb (currentRange s) in
  set_currentFreqDelay (rangeParam r 2) (set_currentRange r s).

(** [if(checkButton_PWR()) {...}] and its three siblings: the call with
    its [static lastState], then the handler when it returned 1. *)
Definition button_PWR (pin : Sample) (s : State) : State :=
  let b := buttons s in
  let q := checkButton (last_PWR b) pin in
  let s1 := set_buttons
              (mkButtons (poll_last q) (last_PAT b) (last_SPD b) (last_RNG b)) s in
  if poll_event q then on_power s1 else s1.

Definition button_PAT (pin : Sample) (s : State) : State :=
  let b := buttons s in
  let q := checkButton (last_PAT b) pin in
  let s1 := set_buttons
              (mkButtons (last_PWR b) (poll_last q) (last_SPD b) (last_RNG b)) s in
  if poll_event q then on_pattern s1 else s1.

Definition button_SPD (pin : Sample) (s : State) : State :=
  let b := buttons s in
  let q := checkButton (last_SPD b) pin in
  let s1 := set_buttons
              (mkButtons (last_PWR b) (last_PAT b) (poll_last q) (last_RNG b)) s in
  if poll_event q then on_speed s1 else s1.

Definition button_RNG (pin : Sample) (s : State) : State :=
  let b := buttons s in
  let q := checkButton (last_RNG b) pin in
  let s1 := set_buttons
              (mkButtons (last_PWR b) (last_PAT b) (last_SPD b) (poll_last q)) s in
  if poll_event q then on_range s1 else s1.

(** The button part of one pass, which [main] has inline (the prototype
    [handleButtons] of the source has no other body): the four buttons in
    the order power, pattern, speed, range. *)
Definition handleButtons (i : Inputs) (s : State) : State :=
  button_RNG (BTN_RANGE i)
    (button_SPD (BTN_SPEED i)
       (button_PAT (BTN_PATTERN i)
          (button_PWR (BTN_POWER i) s))).

(** The sound part of one pass: [if(isActive) { generate_tone();
    update_sweep(); }]. *)
Definition sound (s : State) : State :=
  if isActive s then update_sweep (generate_tone s) else s.

(** One pass of [while(1)]. *)
Definition main_loop (s : State) (i : Inputs) : State :=
  sound (handleButtons i s).

(** The state on entry to the main loop: initialisers of the globals and
    statics, all port pins high, low band selected and its initial period
    loaded. *)
Definition main_init : State :=
  mkState false false 0 0 false (rangeParam false 2) 12345 0
    (mkSweepMem 0 0 1 0 0 0 0 0)
    (mkButtons true true true true)
    true true.

(** The main loop run over a finite sequence of pin samples. *)
Definition run (s : State) (ins : list Inputs) : State :=
  fold_left main_loop ins s.

(** [n] consecutive calls of [f]. *)
Fixpoint iter {A : Type} (n : nat) (f : A -> A) (a : A) : A :=
  match n with
  | O => a
  | S k => f (iter k f a)
  end.

(** ** Reference definitions for the pseudo-random source *)

(** The bytes returned by [n] successive calls of [simple_rand], and the
    state they leave. *)
Fixpoint rand_calls (n : nat) (s : State) : list Z * State :=
  match n with
  | O => ([], s)
  | S k =>
      let (r, s1) := simple_rand s in
      let (rs, s2) := rand_calls k s1 in
      (r :: rs, s2)
  end.

(** The recurrence as the specification words it, over the integers:
    [seed = (seed * 1103515245 + 12345) mod 32768] from 12345. *)
Fixpoint spec_seed (n : nat) : Z :=
  match n with
  | O => 12345
  | S k => (spec_seed k * 1103515245 + 12345) mod 32768
  end.

(** The byte the specification's generator returns on call number [n]
    (counting from 0): the new seed [& 0xFF]. *)
Definition spec_byte (n : nat) : Z := Z.land (spec_seed (S n)) 255.

(** ** Polling a button over several passes *)

(** Successive calls of one [checkButton_*] function: the final
    [lastState] and the number of calls that returned 1. *)
Fixpoint poll_seq (lastState : bool) (pins : list Sample) : bool * nat :=
  match pins with
  | [] => (lastState, O)
  | pin :: rest =>
      let q := checkButton lastState pin in
      let (l, n) := poll_seq (poll_last q) rest in
      (l, ((if poll_event q then 1 else 0) + n)%nat)
  end.

(** A pin that reads [level] at both reads of a call. *)
Definition steady (level : bool) : Sample := mkSample level level.

(** A pin that reads [level] first and the opposite level after the
    debounce delay. *)
Definition glitch (level : bool) : Sample := mkSample level (negb level).

(** ** Front-panel inputs *)

(** Active-low buttons: a released pin reads 1, a pressed pin reads 0. *)
Definition released : Sample := steady true.
Definition pressed : Sample := steady false.

(** One pass with no button touched, and one pass with a single button
    held down through its debounce delay. *)
Definition idle : Inputs := mkInputs released released released released.
Definition press_power : Inputs := mkInputs pressed released released released.
Definition press_pattern : Inputs := mkInputs released pressed released released.
Definition press_speed : Inputs := mkInputs released released pressed released.
Definition press_range : Inputs := mkInputs released released released pressed.

(** [k] presses of one button, each followed by a pass that sees it
    released. *)
Fixpoint presses (k : nat) (i : Inputs) : list Inputs :=
  match k with
  | O => []
  | S j => i :: idle :: presses j i
  end.

(** ** The pattern-local statics, by name *)

Inductive Counter : Set :=
| PulseCount | StepCount | FreqStep | HbCount
| SirenCount | ChirpState | ChirpCount | WalkCount.

(** The [case] label under which a static is used. *)
Definition owner (c : Counter) : Z :=
  match c with
  | PulseCount => 4
  | StepCount => 5
  | FreqStep => 6
  | HbCount => 7
  | SirenCount => 8
  | ChirpState | ChirpCount => 9
  | WalkCount => 10
  end.

Definition counter (c : Counter) (s : State) : Z :=
  match c with
  | PulseCount => pulseCount (mem s)
  | StepCount => stepCount (mem s)
  | FreqStep => freqStep (mem s)
  | HbCount => hbCount (mem s)
  | SirenCount => sirenCount (mem s)
  | ChirpState => chirpState (mem s)
  | ChirpCount => chirpCount (mem s)
  | WalkCount => walkCount (mem s)
  end.

(** The selected pattern is not the one that owns the static [c]. *)
Definition other_selected (c : Counter) (s : State) : bool :=
  negb (currentPattern s =? owner c).

(** ** The band of the period *)

(** The period lies between the selected band's bounds. *)
Definition in_band (s : State) : Prop :=
  minDelay s <= currentFreqDelay s <= maxDelay s.

(** The sequence of periods after 0, 1, ..., [n-1] calls of [f]. *)
Definition periods (n : nat) (f : State -> State) (s : State) : list Z :=
  map (fun k => currentFreqDelay (iter k f s)) (seq 0 n).

(** ** Reference definitions for the cyclic patterns *)

(** The heartbeat table as the specification words it: the period held at
    phase [t] of the 600-tick cycle. *)
Definition heartbeat_window (lo hi t : Z) : Z :=
  if t <? 100 then lo + 2
  else if t <? 150 then hi
  else if t <? 250 then lo + 1
  else hi.

(** Ceiling of a quotient of positive integers. *)
Definition cdiv (a b : Z) : Z := (a + b - 1) / b.

(** ** Passes that keep the period in its band *)

(** The cases of [update_sweep] that take an in-band period to an in-band
    period: those that assign a value computed inside the band (3, 5, 7, 8),
    clamp (10) or leave the period alone (4), and the unit-step sweeps
    (0, 1, 2 at speed 0). *)
Definition keeps_band (s : State) : bool :=
  match currentPattern s with
  | 3 | 4 | 5 | 7 | 8 | 10 => true
  | 0 | 1 | 2 => currentSpeed s =? 0
  | _ => false
  end.

(** Every pass of the main loop over [ins] that reaches the sound part does
    so in a state accepted by [ok]. *)
Fixpoint all_sound (ok : State -> bool) (s : State) (ins : list Inputs) : bool :=
  match ins with
  | [] => true
  | i :: rest =>
      let s1 := handleButtons i s in
      (negb (isActive s1) || ok s1) && all_sound ok (main_loop s i) rest
  end.

(** Every sound pass over [ins] is in a band-keeping case. *)
Definition band_safe : State -> list Inputs -> bool := all_sound keeps_band.

(** The period is less than one largest step (8) outside its band. *)
Definition near_band (s : State) : Prop :=
  minDelay s - 7 <= currentFreqDelay s <= maxDelay s + 7.

(** The cases other than Triangle and Chirps. *)
Definition bounded_case (s : State) : bool :=
  match currentPattern s with
  | 6 | 9 => false
  | _ => true
  end.

(** Four speed presses while the device is off, then power on and one more
    pass: up sweep at step 8 from the initial period. *)
Definition fast_up_sweep_trace : list Inputs :=
  presses 4 press_speed ++ [press_power; idle].

(** Range press, nine pattern presses and four speed presses while the
    device is off: chirps, high band, step 8. *)
Definition fast_high_chirps_setup : list Inputs :=
  presses 1 press_range ++ presses 9 press_pattern ++ presses 4 press_speed.

(** ** The [switch] as a case analysis *)

(** The arms of the [switch], one per label, and the fall-through. *)
Inductive Dispatch (s : State) : Prop :=
| D_up      : currentPattern s = 0 -> update_sweep s = up_sweep s -> Dispatch s
| D_down    : currentPattern s = 1 -> update_sweep s = down_sweep s -> Dispatch s
| D_zigzag  : currentPattern s = 2 -> update_sweep s = zig_zag s -> Dispatch s
| D_random  : currentPattern s = 3 -> update_sweep s = random s -> Dispatch s
| D_pulse   : currentPattern s = 4 -> update_sweep s = pulse s -> Dispatch s
| D_stepped : currentPattern s = 5 -> update_sweep s = stepped s -> Dispatch s
| D_triangle : currentPattern s = 6 -> update_sweep s = triangle s -> Dispatch s
| D_heart   : currentPattern s = 7 -> update_sweep s = heartbeat s -> Dispatch s
| D_siren   : currentPattern s = 8 -> update_sweep s = siren s -> Dispatch s
| D_chirps  : currentPattern s = 9 -> update_sweep s = chirps s -> Dispatch s
| D_walk    : currentPattern s = 10 -> update_sweep s = random_walk s -> Dispatch s
| D_none    : currentPattern s < 0 \/ 10 < currentPattern s ->
              update_sweep s = s -> Dispatch s.

(** ** Ranges of the program's variables *)

(** The selection indices address their tables and the [switch], every
    16-bit variable holds a 16-bit value, and every pattern-local static is
    below the limit its own case resets it at. *)
Definition wf (s : State) : Prop :=
  (0 <= currentPattern s <= 10 /\ 0 <= currentSpeed s <= 4) /\
  (0 <= currentFreqDelay s < 65536 /\ 0 <= seed s < 65536 /\
   0 <= toneCounter s < 65536) /\
  ((freqStep (mem s) = 1 \/ freqStep (mem s) = -1) /\
   (chirpState (mem s) = 0 \/ chirpState (mem s) = 1)) /\
  (0 <= pulseCount (mem s) < 500 /\ 0 <= stepCount (mem s) < 100 /\
   0 <= hbCount (mem s) < 600 /\ 0 <= sirenCount (mem s) < 100 /\
   0 <= chirpCount (mem s) <= 300 /\ 0 <= walkCount (mem s) < 20).

(** All four buttons seen released. *)
Definition all_released (b : Buttons) : Prop :=
  last_PWR b = true /\ last_PAT b = true /\ last_SPD b = true /\
  last_RNG b = true.

(** Every pin reads the opposite of its stable level first and the stable
    level again after the debounce delay. *)
Definition noise (b : Buttons) : Inputs :=
  mkInputs (glitch (negb (last_PWR b))) (glitch (negb (last_PAT b)))
           (glitch (negb (last_SPD b))) (glitch (negb (last_RNG b))).

(** What the front panel selects: power, band, pattern and speed. *)
Definition selection (s : State) : bool * bool * Z * Z :=
  (isActive s, currentRange s, currentPattern s, currentSpeed s).

(** While the device is off the buzzer pin is low. *)
Definition quiet_when_off (s : State) : Prop :=
  isActive s = false -> BUZZER s = false.

(** ** Port pins, status LEDs and the timer interrupt *)

(** The bit-addressable port pins, by bit address: port 1 at [0x90],
    port 2 at [0xA0], port 3 at [0xB0]. *)
Definition Pins : Type := Z -> bool.

(** Assignment to an [__sbit]. *)
Definition write (addr : Z) (v : bool) (p : Pins) : Pins :=
  fun a => if a =? addr then v else p a.

(** A sequence of such assignments, first to last. *)
Definition writes (l : list (Z * bool)) (p : Pins) : Pins :=
  fold_left (fun q av => write (fst av) (snd av) q) l p.

(** [(currentPattern != k)] as the level written to an active-low LED. *)
Definition pattern_is_not (s : State) (k : Z) : bool :=
  negb (currentPattern s =? k).

(** ** The Keil build *)

(** The second build of the program has the same globals, tables and
    pattern code; its tone generator writes the second pin as the
    complement of the first instead of toggling it, and its [main] drives
    the pair to 0 and 1 before the loop. *)
Module Keil.

(** [BUZZER = !BUZZER; BUZZER_INV = !BUZZER;], the field [BUZZER_COMP]
    standing for the pin [BUZZER_INV]. *)
Definition generate_tone (s : State) : State :=
  let c := u16 (toneCounter s + 1) in
  if c >=? currentFreqDelay s then
    let s1 := set_BUZZER (negb (BUZZER s)) (set_toneCounter 0 s) in
    set_BUZZER_COMP (negb (BUZZER s1)) s1
  else set_toneCounter c s.

Definition sound (s : State) : State :=
  if isActive s then update_sweep (generate_tone s) else s.

Definition main_loop (s : State) (i : Inputs) : State :=
  sound (handleButtons i s).

Definition main_init : State :=
  set_BUZZER_COMP true (set_BUZZER false main_init).

(** The [sbit] declarations of the LEDs in this build. *)
Definition POWER_LED : Z := 0xA0 + 6.
Definition SPEED_LED : Z := 0xA0 + 6.
Definition RANGE_LED : Z := 0xA0 + 7.
Definition UP_LED : Z := 0xA0 + 0.
Definition DOWN_LED : Z := 0xA0 + 1.
Definition ZIGZAG_LED : Z := 0xA0 + 2.
Definition RAND_LED : Z := 0xA0 + 3.
Definition PULSE_LED : Z := 0xA0 + 4.
Definition STEP_LED : Z := 0xA0 + 5.
Definition TRIANGLE_LED : Z := 0xA0 + 0.
Definition HEART_LED : Z := 0xA0 + 1.
Definition SIREN_LED : Z := 0xA0 + 2.
Definition CHIRP_LED : Z := 0xA0 + 3.
Definition WALK_LED : Z := 0xA0 + 4.

(** [updateStatusLEDs] of this build: thirteen assignments, the first to
    the power LED. *)
Definition updateStatusLEDs (s : State) (p : Pins) : Pins :=
  writes [ (POWER_LED, negb (isActive s));
           (RANGE_LED, negb (currentRange s));
           (UP_LED, pattern_is_not s 0);
           (DOWN_LED, pattern_is_not s 1);
           (ZIGZAG_LED, pattern_is_not s 2);
           (RAND_LED, pattern_is_not s 3);
           (PULSE_LED, pattern_is_not s 4);
           (STEP_LED, pattern_is_not s 5);
           (TRIANGLE_LED, pattern_is_not s 6);
           (HEART_LED, pattern_is_not s 7);
           (SIREN_LED, pattern_is_not s 8);
           (CHIRP_LED, pattern_is_not s 9);
           (WALK_LED, pattern_is_not s 10) ] p.

End Keil.

(** The two buzzer pins carry opposite levels. *)
Definition complementary (s : State) : Prop := BUZZER_COMP s = negb (BUZZER s).

(** The sequence of sweep directions after 0, 1, ..., [n-1] calls. *)
Definition directions (n : nat) (f : State -> State) (s : State) : list bool :=
  map (fun k => sweepDirection (iter k f s)) (seq 0 n).

(** Every period of the first [n] calls lies between 0 and [hi]. *)
Definition periods_within (hi : Z) (n : nat) (f : State -> State) (s : State)
  : bool :=
  forallb (fun p => (0 <=? p) && (p <=? hi)) (periods n f s).

(** Up Sweep until its reset loads [max], then power off, six pattern
    presses to Triangle, and the pin levels of a power press. *)
Definition triangle_at_max_setup : list Inputs :=
  press_power :: repeat idle 12 ++ [press_power; idle] ++
  presses 6 press_pattern.

(** The assignment of the Stepped case, as a function of the period. *)
Definition stepped_next (lo hi st p : Z) : Z :=
  u16 (lo + u16 (p + st - lo) mod u16 (hi - lo + 1)).

(** ** The returned bytes of the random source on their own *)

(** The low byte of [seed * 1103515245 + 12345]: the constants reduced
    modulo 256. *)
Definition byte_next (b : Z) : Z := (b * 109 + 57) mod 256.

(** The next [n] bytes after the byte [b]. *)
Fixpoint byte_orbit (n : nat) (b : Z) : list Z :=
  match n with
  | O => []
  | S k => byte_next b :: byte_orbit k (byte_next b)
  end.

(** The byte values 0..255. *)
Definition all_bytes : list Z := map Z.of_nat (seq 0 256).

(** From [b], 256 steps pass through every byte value and come back to
    [b]. *)
Definition full_cycle (b : Z) : bool :=
  let o := byte_orbit 256 b in
  forallb (fun v => existsb (Z.eqb v) o) all_bytes
  && (iter 256 byte_next b =? b).

(** ** Status LEDs and the timer interrupt of this build *)

(** The [__sbit __at] declarations of the LEDs. *)
Definition SPEED_LED : Z := 0xA0 + 6.
Definition RANGE_LED : Z := 0xA0 + 7.
Definition UP_LED : Z := 0xA0 + 0.
Definition DOWN_LED : Z := 0xA0 + 1.
Definition ZIGZAG_LED : Z := 0xA0 + 2.
Definition RAND_LED : Z := 0xA0 + 3.
Definition PULSE_LED : Z := 0xA0 + 4.
Definition TRIANGLE_LED : Z := 0x90 + 5.
Definition STEP_LED : Z := 0xA0 + 0.
Definition HEART_LED : Z := 0xA0 + 1.
Definition SIREN_LED : Z := 0xA0 + 2.
Definition CHIRP_LED : Z := 0xA0 + 3.
Definition WALK_LED : Z := 0xA0 + 4.

(** [updateStatusLEDs]: twelve pin assignments in source order. *)
Definition updateStatusLEDs (s : State) (p : Pins) : Pins :=
  writes [ (RANGE_LED, negb (currentRange s));
           (UP_LED, pattern_is_not s 0);
           (DOWN_LED, pattern_is_not s 1);
           (ZIGZAG_LED, pattern_is_not s 2);
           (RAND_LED, pattern_is_not s 3);
           (PULSE_LED, pattern_is_not s 4);
           (STEP_LED, pattern_is_not s 5);
           (TRIANGLE_LED, pattern_is_not s 6);
           (HEART_LED, pattern_is_not s 7);
           (SIREN_LED, pattern_is_not s 8);
           (CHIRP_LED, pattern_is_not s 9);
           (WALK_LED, pattern_is_not s 10) ] p.

(** The pins [updateStatusLEDs] assigns. *)
Definition led_pins : list Z :=
  [RANGE_LED; UP_LED; DOWN_LED; ZIGZAG_LED; RAND_LED; PULSE_LED;
   TRIANGLE_LED].

(** The [static msCount] of the interrupt routine and the two reload
    registers it writes. *)
Record Timer : Set := mkTimer { msCount : Z; TH0 : Z; TL0 : Z }.

(** [Timer0_ISR]: reload, then blink the speed LED every 100th interrupt
    while the device is on, or switch it off. *)
Definition Timer0_ISR (s : State) (tp : Timer * Pins) : Timer * Pins :=
  let (t, p) := tp in
  if isActive s then
    let c := u16 (msCount t + 1) in
    if c >=? 100
    then (mkTimer 0 0xFC 0x66, write SPEED_LED (negb (p SPEED_LED)) p)
    else (mkTimer c 0xFC 0x66, p)
  else (mkTimer (msCount t) 0xFC 0x66, write SPEED_LED true p).

(** ** [delay_ms] *)

(** A counting [for] loop [for(i = i0; i < limit; i++) body] on a
    [uint16_t] counter; [fuel] bounds the number of loop tests.  The result
    is the final counter and the final value of what the body works on. *)
Fixpoint for_loop {A : Type} (fuel : nat) (i limit : Z)
    (body : A -> option A) (a : A) : option (Z * A) :=
  match fuel with
  | O => None
  | S f =>
      if i <? limit then
        match body a with
        | Some a' => for_loop f (u16 (i + 1)) limit body a'
        | None => None
        end
      else Some (i, a)
  end.

(** [delay_ms(ms)]: the two nested loops.  The value carried through the
    loops counts the executions of the empty statement of the inner loop,
    the time the call takes; the result pairs it with the final [i]. *)
Definition delay_ms (fuel : nat) (ms : Z) : option (Z * Z) :=
  for_loop fuel 0 ms
    (fun n =>
       match for_loop fuel 0 120 (fun k => Some (k + 1)) n with
       | Some (_, n') => Some n'
       | None => None
       end)
    0.

(** ** Proof automation *)

Ltac split_ifs :=
  repeat match goal with
         | |- context [if ?b then _ else _] => destruct b eqn:?
         end.

Ltac band_fields :=
  unfold in_band, minDelay, maxDelay, step in *;
  cbn [currentRange currentFreqDelay currentSpeed currentPattern isActive mem
       set_isActive set_currentRange set_currentPattern set_currentSpeed
       set_sweepDirection set_currentFreqDelay set_seed set_toneCounter
       set_mem set_buttons set_BUZZER set_BUZZER_COMP upd_mem] in *.

Ltac band_arith :=
  cbv [rangeParam bit_index rangeParams nth negb u16] in *;
  Z.to_euclidean_division_equations; lia.

(** Case analysis on a state whose band and speed are to be enumerated:
    the record is opened, the hypotheses fix its selected fields, and the
    ten combinations of band and speed are left as goals over concrete
    numbers. *)
Ltac enumerate_configs s Hv :=
  let a := fresh "a" in let r := fresh "r" in let p := fresh "p" in
  let v := fresh "v" in let d := fresh "d" in let f := fresh "f" in
  let sd := fresh "sd" in let tc := fresh "tc" in let m := fresh "m" in
  let b := fresh "b" in let bz := fresh "bz" in let bc := fresh "bc" in
  destruct s as [a r p v d f sd tc m b bz bc];
  destruct m as [? ? ? ? ? ? ? ?];
  cbn [currentRange currentFreqDelay currentSpeed currentPattern isActive mem
       sweepDirection pulseCount stepCount freqStep hbCount sirenCount
       chirpState chirpCount walkCount] in *;
  let C := fresh "C" in
  assert (C : v = 0 \/ v = 1 \/ v = 2 \/ v = 3 \/ v = 4) by lia;
  clear Hv;
  destruct r; cbv [maxDelay minDelay rangeParam bit_index rangeParams nth
                   currentRange] in *;
  destruct C as [C|[C|[C|[C|C]]]]; subst.

(** Case analysis on the conditions of the goal, a condition that itself
    holds a conditional only after the one inside it. *)
Ltac split_inner_ifs :=
  repeat match goal with
         | |- context [if ?b then _ else _] =>
             lazymatch b with
             | context [if _ then _ else _] => fail
             | _ => destruct b eqn:?
             end
         end.

(** * Proofs *)

(** ** Machine integers *)

Lemma u16_small (z : Z) : 0 <= z < 65536 -> u16 z = z.
Proof. intros H. unfold u16. apply Z.mod_small; exact H. Qed.

Lemma s16_small (z : Z) : -32768 <= z < 32768 -> s16 z = z.
Proof.
  intros H. unfold s16. rewrite Z.mod_small; lia.
Qed.

Lemma land_255 (z : Z) : Z.land z 255 = z mod 256.
Proof. change 255 with (Z.ones 8). rewrite Z.land_ones by lia. reflexivity. Qed.

(** ** The pseudo-random source *)

(** Low fifteen bits of the new seed: those of the integer recurrence. *)
Lemma rand_next_low15 (sd : Z) :
  rand_next sd mod 32768 = (sd * 1103515245 + 12345) mod 32768.
Proof.
  unfold rand_next, u16, s32.
  set (x := sd * 1103515245).
  Z.to_euclidean_division_equations. lia.
Qed.

(** The stored seed itself can carry bit 15: the 32-bit product wraps to
    a negative [long], whose remainder is negative. *)
Lemma rand_next_first :
  rand_next 12345 = 38526 /\ spec_seed 1 = 5758 /\ 38526 = 5758 + 32768.
Proof. repeat split; reflexivity. Qed.

Lemma low15_step (a b : Z) :
  a mod 32768 = b mod 32768 ->
  (a * 1103515245 + 12345) mod 32768 = (b * 1103515245 + 12345) mod 32768.
Proof.
  intros H.
  rewrite (Z.add_mod (a * _)), (Z.add_mod (b * _)) by lia.
  rewrite (Z.mul_mod a), (Z.mul_mod b) by lia.
  rewrite H. reflexivity.
Qed.

Lemma low8_of_low15 (a b : Z) :
  a mod 32768 = b mod 32768 -> a mod 256 = b mod 256.
Proof.
  intros H.
  Z.to_euclidean_division_equations. lia.
Qed.

Lemma spec_seed_range (n : nat) : 0 <= spec_seed n < 32768.
Proof.
  destruct n; simpl; [lia | apply Z.mod_pos_bound; lia].
Qed.

(** The bytes of [n] calls depend on the seed only, through its low
    fifteen bits, and follow the integer recurrence from there; so do the
    low fifteen bits of the seed they leave. *)
Lemma rand_calls_spec (n : nat) : forall (k : nat) (s : State),
  seed s mod 32768 = spec_seed k ->
  fst (rand_calls n s) = map spec_byte (seq k n) /\
  seed (snd (rand_calls n s)) mod 32768 = spec_seed (n + k).
Proof.
  induction n as [|n IH]; intros k s Hs; [split; [reflexivity | exact Hs]|].
  cbn [rand_calls seq map].
  unfold simple_rand.
  assert (Hn : rand_next (seed s) mod 32768 = spec_seed (S k)).
  { rewrite rand_next_low15. cbn [spec_seed].
    apply low15_step. rewrite Hs.
    symmetry. apply Z.mod_small, spec_seed_range. }
  specialize (IH (S k) (set_seed (rand_next (seed s)) s) Hn).
  destruct (rand_calls n (set_seed (rand_next (seed s)) s)) as [rs s2].
  cbn [fst snd] in *. destruct IH as [IB ISd]. split.
  - f_equal; [|exact IB].
    unfold spec_byte, u8. rewrite !land_255, Z.mod_mod by lia.
    apply low8_of_low15. rewrite Hn.
    symmetry. apply Z.mod_small, spec_seed_range.
  - rewrite ISd. f_equal. lia.
Qed.

(** C6. From the initial seed 12345, the bytes returned by successive calls
    of [simple_rand] are those of the integer recurrence
    [seed = (seed * 1103515245 + 12345) mod 32768], each call returning the
    new seed [& 0xFF]: call number [i] returns [spec_byte i], and the seed
    left after [n] calls is the recurrence's up to a multiple of 32768.  The
    bytes depend on nothing else in the state, so two runs from a fresh seed
    return the same sequence. *)
Theorem C6_rand_sequence (n : nat) (s : State) :
  seed s = 12345 ->
  fst (rand_calls n s) = map spec_byte (seq 0 n) /\
  seed (snd (rand_calls n s)) mod 32768 = spec_seed n /\
  (forall s', seed s' = 12345 -> fst (rand_calls n s') = fst (rand_calls n s)).
Proof.
  intros Hs.
  assert (G : forall t, seed t = 12345 ->
              fst (rand_calls n t) = map spec_byte (seq 0 n) /\
              seed (snd (rand_calls n t)) mod 32768 = spec_seed (n + 0)).
  { intros t Ht. apply rand_calls_spec. rewrite Ht. reflexivity. }
  destruct (G s Hs) as [B Sd]. rewrite Nat.add_0_r in Sd.
  split; [exact B | split; [exact Sd|]].
  intros s' Hs'. destruct (G s' Hs') as [B' _]. congruence.
Qed.

Lemma C6_rand_sequence_witness :
  seed main_init = 12345 /\
  fst (rand_calls 4 main_init) = map spec_byte (seq 0 4) /\
  fst (rand_calls 4 main_init) = [126; 223; 44; 245].
Proof.
  split; [reflexivity | split; [|reflexivity]].
  exact (proj1 (C6_rand_sequence 4 main_init eq_refl)).
Defined.

(** ** Debounced buttons *)

(** A pin at the stable level: no delay, no event. *)
Lemma checkButton_unchanged (l : bool) :
  checkButton l (steady l) = mkPoll l false 0.
Proof. destruct l; reflexivity. Qed.

Lemma poll_seq_steady (l : bool) (n : nat) :
  poll_seq l (repeat (steady l) n) = (l, O).
Proof.
  induction n as [|n IH]; [reflexivity|].
  cbn [repeat poll_seq]. rewrite checkButton_unchanged.
  cbn [poll_last poll_event]. rewrite IH. reflexivity.
Qed.

(** C5. One [checkButton_*] call on a pin whose level differs from
    [lastState]: if the level has reverted at the re-read after the 20 ms
    delay, the call returns 0 and keeps [lastState]; if it holds, the call
    commits [lastState] to the new level and returns 1 exactly when the new
    level is low.  Over successive calls a held press yields one event in
    all, a held release none, and a reverted flip none. *)
Theorem C5_debounce (l : bool) :
  checkButton l (glitch (negb l)) = mkPoll l false 20 /\
  checkButton l (steady (negb l)) = mkPoll (negb l) l 20 /\
  (forall n, poll_seq true (repeat (steady false) (S n)) = (false, 1%nat)) /\
  (forall n, poll_seq false (repeat (steady true) (S n)) = (true, 0%nat)) /\
  (forall n, poll_seq l (glitch (negb l) :: repeat (steady l) n) = (l, 0%nat)).
Proof.
  repeat split.
  - destruct l; reflexivity.
  - destruct l; reflexivity.
  - intros n. cbn [repeat poll_seq].
    change (checkButton true (steady false)) with (mkPoll false true 20).
    cbn [poll_last poll_event]. rewrite poll_seq_steady. reflexivity.
  - intros n. cbn [repeat poll_seq].
    change (checkButton false (steady true)) with (mkPoll true false 20).
    cbn [poll_last poll_event]. rewrite poll_seq_steady. reflexivity.
  - intros n. cbn [poll_seq].
    replace (checkButton l (glitch (negb l))) with (mkPoll l false 20)
      by (destruct l; reflexivity).
    cbn [poll_last poll_event]. rewrite poll_seq_steady. reflexivity.
Qed.

(** ** The power-on scenario *)

(** C2 as stated fails: with step 1 the period is 25 after 12 calls, so the
    13th call already resets it to 50 and the 14th brings it to 49. *)
Lemma C2_thirteen_calls_counterexample :
  let s1 := handleButtons press_power main_init in
  currentFreqDelay (iter 13 update_sweep s1) = 50 /\
  currentFreqDelay (iter 13 update_sweep s1) <> 25 /\
  currentFreqDelay (iter 14 update_sweep s1) = 49 /\
  currentFreqDelay (iter 14 update_sweep s1) <> 50.
Proof.
  vm_compute. repeat split; discriminate.
Qed.

(** C2, amended. From the initial state (inactive, low band, pattern 0,
    speed 0, period 37) a confirmed power press sets [isActive]; the next 12
    calls of [update_sweep] bring the period from 37 down to 25 one by one,
    and the 13th call resets it to 50. *)
Theorem C2_power_on_up_sweep :
  let s0 := main_init in
  let s1 := handleButtons press_power s0 in
  (isActive s0 = false /\ currentRange s0 = false /\ currentPattern s0 = 0 /\
   currentSpeed s0 = 0 /\ currentFreqDelay s0 = 37) /\
  isActive s1 = true /\ step s1 = 1 /\ minDelay s1 = 25 /\ maxDelay s1 = 50 /\
  periods 14 update_sweep s1 =
    [37; 36; 35; 34; 33; 32; 31; 30; 29; 28; 27; 26; 25; 50].
Proof.
  vm_compute. repeat split; reflexivity.
Qed.

(** The same scenario through the main loop: the pass that takes the power
    press already makes the first call, and each later pass one more. *)
Lemma power_on_main_loop :
  map (fun n => currentFreqDelay (run main_init (press_power :: repeat idle n)))
      (seq 0 13)
  = [36; 35; 34; 33; 32; 31; 30; 29; 28; 27; 26; 25; 50].
Proof. vm_compute. reflexivity. Qed.

(** ** Dispatch of [update_sweep] *)

Lemma dispatch (s : State) : Dispatch s.
Proof.
  unfold update_sweep.
  destruct (currentPattern s) as [|p|p] eqn:E.
  - apply D_up; unfold update_sweep; rewrite ?E; reflexivity.
  - do 4 (try destruct p as [p|p|]);
      first [ apply D_down; unfold update_sweep; rewrite ?E; reflexivity
            | apply D_zigzag; unfold update_sweep; rewrite ?E; reflexivity
            | apply D_random; unfold update_sweep; rewrite ?E; reflexivity
            | apply D_pulse; unfold update_sweep; rewrite ?E; reflexivity
            | apply D_stepped; unfold update_sweep; rewrite ?E; reflexivity
            | apply D_triangle; unfold update_sweep; rewrite ?E; reflexivity
            | apply D_heart; unfold update_sweep; rewrite ?E; reflexivity
            | apply D_siren; unfold update_sweep; rewrite ?E; reflexivity
            | apply D_chirps; unfold update_sweep; rewrite ?E; reflexivity
            | apply D_walk; unfold update_sweep; rewrite ?E; reflexivity
            | apply D_none; [right; lia | unfold update_sweep; rewrite ?E; reflexivity] ].
  - apply D_none; [left; lia | unfold update_sweep; rewrite ?E; reflexivity].
Qed.

(** ** Pattern-local statics *)

(** The button handlers and the tone generator never write a static of
    [update_sweep]. *)
Lemma button_PWR_frame (pin : Sample) (s : State) :
  currentRange (button_PWR pin s) = currentRange s /\
  currentFreqDelay (button_PWR pin s) = currentFreqDelay s /\
  mem (button_PWR pin s) = mem s.
Proof.
  unfold button_PWR, on_power. split_ifs; repeat split; reflexivity.
Qed.

Lemma button_PAT_frame (pin : Sample) (s : State) :
  currentRange (button_PAT pin s) = currentRange s /\
  currentFreqDelay (button_PAT pin s) = currentFreqDelay s /\
  mem (button_PAT pin s) = mem s.
Proof.
  unfold button_PAT, on_pattern. split_ifs; repeat split; reflexivity.
Qed.

Lemma button_SPD_frame (pin : Sample) (s : State) :
  currentRange (button_SPD pin s) = currentRange s /\
  currentFreqDelay (button_SPD pin s) = currentFreqDelay s /\
  mem (button_SPD pin s) = mem s.
Proof.
  unfold button_SPD, on_speed. split_ifs; repeat split; reflexivity.
Qed.

(** The range button either leaves band and period alone or selects the
    other band together with its initial period. *)
Lemma button_RNG_frame (pin : Sample) (s : State) :
  mem (button_RNG pin s) = mem s /\
  ((currentRange (button_RNG pin s) = currentRange s /\
    currentFreqDelay (button_RNG pin s) = currentFreqDelay s) \/
   (currentRange (button_RNG pin s) = negb (currentRange s) /\
    currentFreqDelay (button_RNG pin s) = rangeParam (negb (currentRange s)) 2)).
Proof.
  unfold button_RNG, on_range. split_ifs; split; try reflexivity.
  - right. split; reflexivity.
  - left. split; reflexivity.
Qed.

Lemma handleButtons_mem (i : Inputs) (s : State) : mem (handleButtons i s) = mem s.
Proof.
  unfold handleButtons.
  destruct (button_RNG_frame (BTN_RANGE i)
              (button_SPD (BTN_SPEED i)
                 (button_PAT (BTN_PATTERN i) (button_PWR (BTN_POWER i) s))))
    as [-> _].
  destruct (button_SPD_frame (BTN_SPEED i)
              (button_PAT (BTN_PATTERN i) (button_PWR (BTN_POWER i) s)))
    as (_ & _ & ->).
  destruct (button_PAT_frame (BTN_PATTERN i) (button_PWR (BTN_POWER i) s))
    as (_ & _ & ->).
  destruct (button_PWR_frame (BTN_POWER i) s) as (_ & _ & ->).
  reflexivity.
Qed.

(** Band and period after the button part: those before it, or the other
    band with its initial period. *)
Lemma handleButtons_band (i : Inputs) (s : State) :
  (currentRange (handleButtons i s) = currentRange s /\
   currentFreqDelay (handleButtons i s) = currentFreqDelay s) \/
  (currentRange (handleButtons i s) = negb (currentRange s) /\
   currentFreqDelay (handleButtons i s) = rangeParam (negb (currentRange s)) 2).
Proof.
  unfold handleButtons.
  set (s3 := button_SPD (BTN_SPEED i)
               (button_PAT (BTN_PATTERN i) (button_PWR (BTN_POWER i) s))).
  assert (E : currentRange s3 = currentRange s /\
              currentFreqDelay s3 = currentFreqDelay s).
  { unfold s3.
    destruct (button_SPD_frame (BTN_SPEED i)
                (button_PAT (BTN_PATTERN i) (button_PWR (BTN_POWER i) s)))
      as (-> & -> & _).
    destruct (button_PAT_frame (BTN_PATTERN i) (button_PWR (BTN_POWER i) s))
      as (-> & -> & _).
    destruct (button_PWR_frame (BTN_POWER i) s) as (-> & -> & _).
    split; reflexivity. }
  destruct E as [ER ED].
  destruct (button_RNG_frame (BTN_RANGE i) s3) as [_ [[R D]|[R D]]];
    rewrite R, D, ER; [left | right]; split; try reflexivity. exact ED.
Qed.

Lemma generate_tone_mem (s : State) : mem (generate_tone s) = mem s.
Proof. unfold generate_tone. destruct (_ >=? _); reflexivity. Qed.

(** C4 as stated fails: the statics do not advance under a pattern that
    does not own them.  With pattern 0 selected a call of [update_sweep]
    leaves all eight unchanged, while the same call under pattern 7 moves
    the heartbeat counter. *)
Lemma C4_counters_frozen_counterexample :
  let s := set_isActive true main_init in
  currentPattern s = 0 /\
  (forall c, counter c (update_sweep s) = counter c s) /\
  counter HbCount (update_sweep (set_currentPattern 7 s)) <> counter HbCount s.
Proof.
  intros s. split; [reflexivity | split].
  - intros c. destruct c; reflexivity.
  - vm_compute. discriminate.
Qed.

(** A call of [update_sweep] under a pattern that does not own a static
    leaves that static as it is. *)
Lemma update_sweep_other_counter (s : State) (c : Counter) :
  currentPattern s <> owner c -> counter c (update_sweep s) = counter c s.
Proof.
  intros Hc.
  destruct (dispatch s) as [E R|E R|E R|E R|E R|E R|E R|E R|E R|E R|E R|E R];
    rewrite R; clear R;
    unfold up_sweep, down_sweep, zig_zag, random, pulse, stepped, triangle,
      heartbeat, siren, chirps, random_walk, simple_rand;
    repeat match goal with
           | |- context [if ?b then _ else _] => destruct b
           end;
    try reflexivity;
    destruct c; try reflexivity; cbn [owner] in Hc; congruence.
Qed.

(** ** Iteration *)

Lemma iter_add {A : Type} (f : A -> A) (a : A) (k n : nat) :
  iter (k + n) f a = iter k f (iter n f a).
Proof. induction k as [|k IH]; [reflexivity|]. cbn [Nat.add iter]. now rewrite IH. Qed.

Lemma iter_S {A : Type} (f : A -> A) (a : A) (n : nat) :
  iter (S n) f a = f (iter n f a).
Proof. reflexivity. Qed.

(** The band bounds are the two table rows. *)
Lemma band_bounds (s : State) :
  (minDelay s = 25 /\ maxDelay s = 50) \/ (minDelay s = 9 /\ maxDelay s = 18).
Proof. unfold minDelay, maxDelay. destruct (currentRange s); [right|left]; split; reflexivity. Qed.

(** A counter that is pre-incremented and reset on reaching [m] counts
    calls modulo [m]. *)
Lemma count_mod (m n h : Z) :
  0 < m < 65536 -> 0 <= n -> h = n mod m ->
  (if u16 (h + 1) >=? m then 0 else u16 (h + 1)) = (n + 1) mod m.
Proof.
  intros Hm Hn Hh.
  assert (Hb : 0 <= h < m) by (subst h; apply Z.mod_pos_bound; lia).
  rewrite u16_small by lia.
  rewrite <- Z.add_mod_idemp_l, <- Hh by lia.
  destruct (Z.geb_spec (h + 1) m) as [G|G].
  - replace (h + 1) with m by lia. symmetry. apply Z.mod_same. lia.
  - symmetry. apply Z.mod_small. lia.
Qed.

(** ** Heartbeat *)

(** One call under pattern 7, in terms of the new phase. *)
Lemma heartbeat_step (s : State) :
  let c := if u16 (hbCount (mem s) + 1) >=? 600 then 0
           else u16 (hbCount (mem s) + 1) in
  0 <= c < 600 ->
  currentPattern (heartbeat s) = currentPattern s /\
  currentRange (heartbeat s) = currentRange s /\
  hbCount (mem (heartbeat s)) = c /\
  currentFreqDelay (heartbeat s) = heartbeat_window (minDelay s) (maxDelay s) c.
Proof.
  intros c Hc. unfold heartbeat, heartbeat_window. fold c.
  destruct (band_bounds s) as [[L H]|[L H]]; rewrite L, H;
    destruct (c <? 100); [|destruct (c <? 150); [|destruct (c <? 250)]| |
                           destruct (c <? 150); [|destruct (c <? 250)]];
    repeat split; reflexivity.
Qed.

Lemma heartbeat_iter (s : State) (n : nat) :
  currentPattern s = 7 -> hbCount (mem s) = 0 ->
  let s' := iter n update_sweep s in
  currentPattern s' = 7 /\ currentRange s' = currentRange s /\
  hbCount (mem s') = Z.of_nat n mod 600 /\
  (n <> O ->
   currentFreqDelay s' =
   heartbeat_window (minDelay s) (maxDelay s) (Z.of_nat n mod 600)).
Proof.
  intros Hp H0. induction n as [|n IH].
  - cbn [iter]. repeat split; try assumption. congruence.
  - cbn zeta in *. cbn [iter]. destruct IH as (IP & IR & IC & _).
    set (t := iter n update_sweep s) in *.
    assert (E : update_sweep t = heartbeat t).
    { destruct (dispatch t); try congruence; lia. }
    rewrite E.
    pose proof (count_mod 600 (Z.of_nat n) (hbCount (mem t))
                  ltac:(lia) ltac:(lia) IC) as Hc.
    replace (Z.of_nat n + 1) with (Z.of_nat (S n)) in Hc by lia.
    assert (Hb : 0 <= Z.of_nat (S n) mod 600 < 600)
      by (apply Z.mod_pos_bound; lia).
    rewrite <- Hc in Hb.
    destruct (heartbeat_step t Hb) as (SP & SR & SC & SD).
    rewrite SP, SR, SC, SD, Hc. unfold minDelay, maxDelay. rewrite IR.
    repeat split; try assumption.
Qed.

(** C8. Under pattern 7, starting from the initial phase counter 0, the
    phase counter after [n] calls is [n mod 600], and every call sets the
    period by the phase it has just reached: phases in [0,100) give
    [min+2], [100,150) give [max], [150,250) give [min+1] and [250,600) give
    [max]; the periods repeat every 600 calls. *)
Theorem C8_heartbeat_cycle (s : State) (n : nat) :
  currentPattern s = 7 -> hbCount (mem s) = 0 ->
  let s' := iter (S n) update_sweep s in
  let t := Z.of_nat (S n) mod 600 in
  hbCount (mem s') = t /\
  (0 <= t < 100 -> currentFreqDelay s' = minDelay s + 2) /\
  (100 <= t < 150 -> currentFreqDelay s' = maxDelay s) /\
  (150 <= t < 250 -> currentFreqDelay s' = minDelay s + 1) /\
  (250 <= t < 600 -> currentFreqDelay s' = maxDelay s) /\
  currentFreqDelay (iter (S n + 600) update_sweep s) = currentFreqDelay s'.
Proof.
  intros Hp H0 s' t.
  destruct (heartbeat_iter s (S n) Hp H0) as (_ & _ & HC & HD).
  specialize (HD ltac:(discriminate)). fold s' t in HC, HD.
  destruct (heartbeat_iter s (S n + 600) Hp H0) as (_ & _ & _ & HD').
  specialize (HD' ltac:(discriminate)).
  replace (Z.of_nat (S n + 600) mod 600) with t in HD'
    by (unfold t; rewrite Nat2Z.inj_add;
        change (Z.of_nat 600) with (1 * 600); now rewrite Z.mod_add by lia).
  split; [exact HC|]. rewrite HD', HD. unfold heartbeat_window.
  repeat split; intros; try reflexivity;
    repeat match goal with
           | |- context [?a <? ?b] => destruct (Z.ltb_spec a b); try lia
           end; reflexivity.
Qed.

Lemma C8_heartbeat_cycle_witness :
  let s := set_currentPattern 7 main_init in
  currentPattern s = 7 /\ hbCount (mem s) = 0 /\
  hbCount (mem (iter 100 update_sweep s)) = 100 /\
  currentFreqDelay (iter 100 update_sweep s) = 50.
Proof.
  intros s.
  pose proof (C8_heartbeat_cycle s 99 eq_refl eq_refl) as (HC & _ & HM & _).
  split; [reflexivity | split; [reflexivity | split]].
  - exact HC.
  - apply HM. change (100 <= 100 < 150). lia.
Defined.

(** ** Siren *)

(** One call under pattern 8: the counter counts to 100, and the call on
    which it gets there toggles the period. *)
Lemma siren_step (s : State) :
  0 <= sirenCount (mem s) < 100 ->
  currentPattern (siren s) = currentPattern s /\
  currentRange (siren s) = currentRange s /\
  (sirenCount (mem s) = 99 ->
   sirenCount (mem (siren s)) = 0 /\
   currentFreqDelay (siren s) =
   siren_toggle (minDelay s) (maxDelay s) (currentFreqDelay s)) /\
  (sirenCount (mem s) < 99 ->
   sirenCount (mem (siren s)) = sirenCount (mem s) + 1 /\
   currentFreqDelay (siren s) = currentFreqDelay s).
Proof.
  intros Hc. unfold siren. rewrite u16_small by lia.
  destruct (Z.geb_spec (sirenCount (mem s) + 1) 100) as [G|G];
    repeat split; intros; try reflexivity; lia.
Qed.

Lemma siren_iter (s : State) (n : nat) :
  currentPattern s = 8 -> sirenCount (mem s) = 0 ->
  let s' := iter n update_sweep s in
  currentPattern s' = 8 /\ currentRange s' = currentRange s /\
  sirenCount (mem s') = Z.of_nat n mod 100 /\
  currentFreqDelay s' =
  iter (Z.to_nat (Z.of_nat n / 100)) (siren_toggle (minDelay s) (maxDelay s))
       (currentFreqDelay s).
Proof.
  intros Hp H0. induction n as [|n IH].
  - cbn [iter]. repeat split; assumption.
  - cbn zeta in *. cbn [iter]. destruct IH as (IP & IR & IC & ID).
    set (t := iter n update_sweep s) in *.
    assert (E : update_sweep t = siren t).
    { destruct (dispatch t); try congruence; lia. }
    rewrite E.
    assert (Hb : 0 <= sirenCount (mem t) < 100)
      by (rewrite IC; apply Z.mod_pos_bound; lia).
    destruct (siren_step t Hb) as (SP & SR & S99 & Slt).
    rewrite SP, SR. split; [exact IP | split; [exact IR|]].
    replace (Z.of_nat (S n)) with (Z.of_nat n + 1) by lia.
    assert (Hmin : minDelay t = minDelay s) by (unfold minDelay; now rewrite IR).
    assert (Hmax : maxDelay t = maxDelay s) by (unfold maxDelay; now rewrite IR).
    destruct (Z.eq_dec (sirenCount (mem t)) 99) as [E99|N99].
    + destruct (S99 E99) as [C D]. rewrite C, D, Hmin, Hmax, ID.
      rewrite E99 in IC.
      assert (Q : (Z.of_nat n + 1) / 100 = Z.of_nat n / 100 + 1)
        by (Z.to_euclidean_division_equations; lia).
      assert (R : (Z.of_nat n + 1) mod 100 = 0)
        by (Z.to_euclidean_division_equations; lia).
      rewrite Q, R, Z2Nat.inj_add by (try apply Z.div_pos; lia).
      rewrite Nat.add_comm. split; reflexivity.
    + destruct (Slt ltac:(lia)) as [C D]. rewrite C, D, ID.
      assert (Q : (Z.of_nat n + 1) / 100 = Z.of_nat n / 100)
        by (Z.to_euclidean_division_equations; lia).
      assert (R : (Z.of_nat n + 1) mod 100 = Z.of_nat n mod 100 + 1)
        by (Z.to_euclidean_division_equations; lia).
      rewrite Q, R, IC. split; reflexivity.
Qed.

Lemma siren_toggle_range (lo hi p : Z) :
  siren_toggle lo hi p = lo \/ siren_toggle lo hi p = hi.
Proof. unfold siren_toggle. destruct (p =? lo); auto. Qed.

(** C10. Under pattern 8 the counter counts calls modulo 100 and every
    100th call replaces the period by [max] if it equals [min] and by [min]
    for every other value, whatever that value was; the other calls leave
    the period alone.  So after [n] calls the period is the start value
    toggled [n / 100] times, and from the first toggle on it is [min] or
    [max]. *)
Theorem C10_siren_toggle (s : State) (n : nat) :
  currentPattern s = 8 -> sirenCount (mem s) = 0 ->
  let s' := iter n update_sweep s in
  let toggle p := if p =? minDelay s then maxDelay s else minDelay s in
  sirenCount (mem s') = Z.of_nat n mod 100 /\
  currentFreqDelay s' =
    iter (Z.to_nat (Z.of_nat n / 100)) toggle (currentFreqDelay s) /\
  (sirenCount (mem s') = 99 ->
   currentFreqDelay (update_sweep s') = toggle (currentFreqDelay s')) /\
  (sirenCount (mem s') <> 99 ->
   currentFreqDelay (update_sweep s') = currentFreqDelay s') /\
  ((100 <= n)%nat ->
   currentFreqDelay s' = minDelay s \/ currentFreqDelay s' = maxDelay s).
Proof.
  intros Hp H0 s' toggle.
  destruct (siren_iter s n Hp H0) as (IP & IR & IC & ID). fold s' in IP, IR, IC, ID.
  assert (Hmin : minDelay s' = minDelay s) by (unfold minDelay; now rewrite IR).
  assert (Hmax : maxDelay s' = maxDelay s) by (unfold maxDelay; now rewrite IR).
  assert (E : update_sweep s' = siren s').
  { destruct (dispatch s'); try congruence; lia. }
  assert (Hb : 0 <= sirenCount (mem s') < 100)
    by (rewrite IC; apply Z.mod_pos_bound; lia).
  destruct (siren_step s' Hb) as (_ & _ & S99 & Slt).
  split; [exact IC | split; [exact ID | split; [|split]]].
  - intros H99. rewrite E. destruct (S99 H99) as [_ D].
    rewrite D, Hmin, Hmax. reflexivity.
  - intros N99. rewrite E. destruct (Slt ltac:(lia)) as [_ D]. exact D.
  - intros Hn. rewrite ID.
    assert (Q : 1 <= Z.of_nat n / 100)
      by (Z.to_euclidean_division_equations; lia).
    destruct (Z.to_nat (Z.of_nat n / 100)) as [|k] eqn:K; [lia|].
    cbn [iter]. apply siren_toggle_range.
Qed.

Lemma C10_siren_toggle_witness :
  let s := set_currentPattern 8 main_init in
  currentPattern s = 8 /\ sirenCount (mem s) = 0 /\
  currentFreqDelay s = 37 /\
  currentFreqDelay (iter 100 update_sweep s) = 25 /\
  currentFreqDelay (iter 200 update_sweep s) = 50.
Proof.
  intros s.
  pose proof (C10_siren_toggle s 100 eq_refl eq_refl) as (_ & H1 & _).
  pose proof (C10_siren_toggle s 200 eq_refl eq_refl) as (_ & H2 & _).
  split; [reflexivity | split; [reflexivity | split; [reflexivity|]]].
  split; [exact H1 | exact H2].
Defined.

(** ** Chirps *)

Lemma speedStep_values (i : Z) :
  0 <= i < 5 ->
  speedStep i = 1 \/ speedStep i = 2 \/ speedStep i = 3 \/
  speedStep i = 5 \/ speedStep i = 8.
Proof.
  intros H.
  assert (C : i = 0 \/ i = 1 \/ i = 2 \/ i = 3 \/ i = 4) by lia.
  destruct C as [->|[->|[->|[->| ->]]]]; cbv; tauto.
Qed.

Lemma step_range (s : State) : 0 <= currentSpeed s < 5 -> 1 <= step s <= 8.
Proof. intros H. unfold step. destruct (speedStep_values _ H) as [E|[E|[E|[E|E]]]]; lia. Qed.

(** The pause sub-state over [k <= 300] calls: only the counter moves. *)
Lemma chirps_pause_iter (s : State) (k : nat) :
  currentPattern s = 9 -> chirpState (mem s) <> 0 -> chirpCount (mem s) = 0 ->
  (k <= 300)%nat ->
  let s' := iter k update_sweep s in
  currentPattern s' = 9 /\ currentRange s' = currentRange s /\
  chirpState (mem s') = chirpState (mem s) /\
  chirpCount (mem s') = Z.of_nat k /\
  currentFreqDelay s' = currentFreqDelay s.
Proof.
  intros Hp Hs Hc. induction k as [|k IH]; intros Hk.
  - cbn [iter]. repeat split; assumption.
  - cbn zeta in *. cbn [iter].
    destruct (IH ltac:(lia)) as (IP & IR & IS & IC & ID).
    set (t := iter k update_sweep s) in *.
    assert (E : update_sweep t = chirps t).
    { destruct (dispatch t); try congruence; lia. }
    rewrite E. unfold chirps.
    destruct (Z.eqb_spec (chirpState (mem t)) 0) as [Z0|_]; [congruence|].
    rewrite IC, u16_small by lia.
    destruct (Z.gtb_spec (Z.of_nat k + 1) 300) as [G|G]; [lia|].
    cbn. repeat split; try assumption. lia.
Qed.

(** The transitions of Chirps.  In the falling sub-state ([chirpState] 0)
    a call with the period above [min] subtracts [3 * step] from it in
    16-bit unsigned arithmetic, which is the plain difference only when the
    period is at least [3 * step], and stays falling; a call with the period
    at or below [min] leaves the period and switches to the pause sub-state.
    In pause, 300 calls only count, and the call after them resets the
    period to [max], clears the counter and returns to falling. *)
Lemma chirps_transitions (s : State) :
  currentPattern s = 9 -> 0 <= currentSpeed s < 5 ->
  0 <= currentFreqDelay s < 65536 ->
  (chirpState (mem s) = 0 -> minDelay s < currentFreqDelay s ->
   currentFreqDelay (update_sweep s) = u16 (currentFreqDelay s - 3 * step s) /\
   (3 * step s <= currentFreqDelay s ->
    currentFreqDelay (update_sweep s) = currentFreqDelay s - 3 * step s) /\
   chirpState (mem (update_sweep s)) = 0) /\
  (chirpState (mem s) = 0 -> currentFreqDelay s <= minDelay s ->
   currentFreqDelay (update_sweep s) = currentFreqDelay s /\
   chirpState (mem (update_sweep s)) = 1 /\
   chirpCount (mem (update_sweep s)) = chirpCount (mem s)) /\
  (chirpState (mem s) <> 0 -> chirpCount (mem s) = 0 ->
   (forall k, (k <= 300)%nat ->
      chirpState (mem (iter k update_sweep s)) = chirpState (mem s) /\
      chirpCount (mem (iter k update_sweep s)) = Z.of_nat k /\
      currentFreqDelay (iter k update_sweep s) = currentFreqDelay s) /\
   chirpState (mem (iter 301 update_sweep s)) = 0 /\
   chirpCount (mem (iter 301 update_sweep s)) = 0 /\
   currentFreqDelay (iter 301 update_sweep s) = maxDelay s).
Proof.
  intros Hp Hv Hd.
  assert (E : forall t, currentPattern t = 9 -> update_sweep t = chirps t).
  { intros t Ht. destruct (dispatch t); try congruence; lia. }
  pose proof (step_range s Hv) as Hst.
  split; [|split].
  - intros H0 Hgt. rewrite (E s Hp). unfold chirps. rewrite H0. cbn [Z.eqb].
    destruct (Z.gtb_spec (currentFreqDelay s) (minDelay s)) as [_|G]; [|lia].
    rewrite s16_small by lia. cbn [currentFreqDelay set_currentFreqDelay mem].
    replace (step s * 3) with (3 * step s) by lia.
    split; [reflexivity | split; [|exact H0]].
    intros Hle. apply u16_small. lia.
  - intros H0 Hle. rewrite (E s Hp). unfold chirps. rewrite H0. cbn [Z.eqb].
    destruct (Z.gtb_spec (currentFreqDelay s) (minDelay s)) as [G|_]; [lia|].
    repeat split; reflexivity.
  - intros Hs Hc. split.
    + intros k Hk.
      destruct (chirps_pause_iter s k Hp Hs Hc Hk) as (_ & _ & IS & IC & ID).
      repeat split; assumption.
    + destruct (chirps_pause_iter s 300 Hp Hs Hc (le_n _))
        as (IP & IR & IS & IC & ID).
      rewrite !(iter_S update_sweep s 300).
      set (t := iter 300 update_sweep s) in *.
      rewrite (E t IP). unfold chirps.
      destruct (Z.eqb_spec (chirpState (mem t)) 0) as [Z0|_]; [congruence|].
      rewrite IC. change (u16 (Z.of_nat 300 + 1) >? 300) with true.
      cbn [chirpState chirpCount currentFreqDelay mem set_currentFreqDelay
           upd_mem set_mem set_chirpState set_chirpCount].
      unfold maxDelay. rewrite IR. repeat split; reflexivity.
Qed.

Lemma chirps_transitions_witness :
  let s := set_currentFreqDelay 50 (set_currentPattern 9 main_init) in
  let q := upd_mem (set_chirpState 1) (set_currentPattern 9 main_init) in
  (currentPattern s = 9 /\ 0 <= currentSpeed s < 5 /\
   0 <= currentFreqDelay s < 65536 /\
   chirpState (mem s) = 0 /\ minDelay s < currentFreqDelay s /\
   3 * step s <= currentFreqDelay s /\
   currentFreqDelay (update_sweep s) = 50 - 3 * 1) /\
  (currentPattern q = 9 /\ chirpState (mem q) <> 0 /\ chirpCount (mem q) = 0 /\
   currentFreqDelay q = 37 /\
   currentFreqDelay (iter 300 update_sweep q) = 37 /\
   currentFreqDelay (iter 301 update_sweep q) = 50).
Proof.
  intros s q.
  assert (Hv : 0 <= currentSpeed s < 5) by (change (0 <= 0 < 5); lia).
  assert (Hd : 0 <= currentFreqDelay s < 65536)
    by (change (0 <= 50 < 65536); lia).
  assert (Hm : minDelay s < currentFreqDelay s) by reflexivity.
  assert (H3 : 3 * step s <= currentFreqDelay s) by (change (3 <= 50); lia).
  assert (Hd' : 0 <= currentFreqDelay q < 65536)
    by (change (0 <= 37 < 65536); lia).
  assert (Hq : chirpState (mem q) <> 0) by (change (1 <> 0); lia).
  destruct (chirps_transitions s eq_refl Hv Hd) as (F & _ & _).
  destruct (F eq_refl Hm) as (_ & D & _).
  destruct (chirps_transitions q eq_refl Hv Hd') as (_ & _ & P).
  destruct (P Hq eq_refl) as (K & _ & _ & R).
  destruct (K 300%nat (le_n _)) as (_ & _ & K300).
  split.
  - repeat (split; [assumption || reflexivity|]). exact (D H3).
  - split; [reflexivity | split; [exact Hq | split; [reflexivity|]]].
    split; [reflexivity | split; [exact K300 | exact R]].
Defined.

(** ** Up Sweep *)

Lemma set_currentFreqDelay_same (s : State) :
  set_currentFreqDelay (currentFreqDelay s) s = s.
Proof. destruct s; reflexivity. Qed.

(** While the period is above [min], [k] calls under pattern 0 have taken
    [k] steps off it and touched nothing else. *)
Lemma up_sweep_descend (s : State) (k : nat) :
  currentPattern s = 0 -> 0 <= step s -> currentFreqDelay s < 65536 ->
  (forall j, (j < k)%nat -> minDelay s < currentFreqDelay s - Z.of_nat j * step s) ->
  0 <= currentFreqDelay s - Z.of_nat k * step s ->
  iter k update_sweep s =
  set_currentFreqDelay (currentFreqDelay s - Z.of_nat k * step s) s.
Proof.
  intros Hp Hs Hd. induction k as [|k IH]; intros Hj Hk.
  - cbn [iter]. replace (currentFreqDelay s - Z.of_nat 0 * step s)
      with (currentFreqDelay s) by lia.
    symmetry. apply set_currentFreqDelay_same.
  - pose proof (Hj k ltac:(lia)) as Hlast.
    cbn [iter]. rewrite IH; [| intros j Hlt; apply Hj; lia | nia].
    set (t := set_currentFreqDelay _ s).
    assert (E : update_sweep t = up_sweep t).
    { destruct (dispatch t) as [E R|E R|E R|E R|E R|E R|E R|E R|E R|E R|E R|E R];
        try exact R; cbn in E; try congruence; lia. }
    rewrite E. unfold up_sweep, t.
    cbn [currentFreqDelay set_currentFreqDelay].
    change (minDelay (set_currentFreqDelay _ s)) with (minDelay s).
    change (step (set_currentFreqDelay _ s)) with (step s).
    destruct (Z.gtb_spec (currentFreqDelay s - Z.of_nat k * step s) (minDelay s))
      as [_|G]; [|lia].
    rewrite u16_small by nia.
    replace (currentFreqDelay s - Z.of_nat (S k) * step s)
      with (currentFreqDelay s - Z.of_nat k * step s - step s)
      by (rewrite Nat2Z.inj_succ; ring).
    reflexivity.
Qed.

(** At or below [min], the next call loads [max]. *)
Lemma up_sweep_reset (s : State) :
  currentPattern s = 0 -> currentFreqDelay s <= minDelay s ->
  update_sweep s = set_currentFreqDelay (maxDelay s) s.
Proof.
  intros Hp Hle.
  assert (E : update_sweep s = up_sweep s).
  { destruct (dispatch s); try congruence; lia. }
  rewrite E. unfold up_sweep.
  destruct (Z.gtb_spec (currentFreqDelay s) (minDelay s)); [lia | reflexivity].
Qed.

(** C7. Under pattern 0, starting from the period at [max], with
    [n = ceil((max - min) / step)]: the first [n] calls each take one step
    off the period, which stays above [min] before each of them and is at or
    below [min] after the last; call [n + 1] loads [max] again and restores
    the whole state, so the periods repeat with cycle length [n + 1], and
    within a cycle they are strictly decreasing. *)
Theorem C7_up_sweep_sawtooth (s : State) :
  currentPattern s = 0 -> 0 <= currentSpeed s < 5 ->
  currentFreqDelay s = maxDelay s ->
  let n := Z.to_nat (cdiv (maxDelay s - minDelay s) (step s)) in
  let period k := currentFreqDelay (iter k update_sweep s) in
  (forall k, (k <= n)%nat -> period k = maxDelay s - Z.of_nat k * step s) /\
  (forall k, (k < n)%nat -> minDelay s < period k) /\
  period n <= minDelay s /\
  period (S n) = maxDelay s /\
  iter (S n) update_sweep s = s /\
  (forall k, period (k + S n)%nat = period k) /\
  (forall j k, (j < k <= n)%nat -> period k < period j).
Proof.
  intros Hp Hv Hmax n period.
  assert (D : forall k, (k <= n)%nat ->
              iter k update_sweep s =
              set_currentFreqDelay (maxDelay s - Z.of_nat k * step s) s /\
              (forall j, (j < k)%nat -> minDelay s < maxDelay s - Z.of_nat j * step s)
              /\ maxDelay s - Z.of_nat n * step s <= minDelay s).
  { intros k Hk. rewrite <- Hmax.
    assert (A : (forall j, (j < n)%nat ->
                   minDelay s < currentFreqDelay s - Z.of_nat j * step s) /\
                0 <= currentFreqDelay s - Z.of_nat n * step s <= minDelay s).
    { subst n. rewrite Hmax. unfold step.
      destruct (band_bounds s) as [[L H]|[L H]]; rewrite L, H;
        destruct (speedStep_values _ Hv) as [E|[E|[E|[E|E]]]]; rewrite E;
        match goal with
        | |- context [Z.to_nat ?c] =>
            let m := eval vm_compute in (Z.to_nat c) in
            change (Z.to_nat c) with m
        end; split; try lia; intros j Hj; lia. }
    destruct A as [A1 A2].
    split; [|split; [intros j Hj; apply A1; lia | lia]].
    assert (Hst : 1 <= step s <= 8) by (apply step_range; exact Hv).
    apply up_sweep_descend; [exact Hp | lia | | intros j Hj; apply A1; lia | nia].
    destruct (band_bounds s) as [[L H]|[L H]]; rewrite Hmax, H; lia. }
  assert (P : forall k, (k <= n)%nat -> period k = maxDelay s - Z.of_nat k * step s).
  { intros k Hk. unfold period. destruct (D k Hk) as [-> _]. reflexivity. }
  assert (R : iter (S n) update_sweep s = s).
  { cbn [iter]. destruct (D n (le_n _)) as (E & _ & Hle). rewrite E.
    rewrite up_sweep_reset; [| exact Hp | exact Hle].
    change (maxDelay (set_currentFreqDelay _ s)) with (maxDelay s).
    rewrite <- Hmax. destruct s; reflexivity. }
  assert (Hst : 1 <= step s <= 8) by (apply step_range; exact Hv).
  split; [exact P | split; [|split; [|split; [|split; [exact R | split]]]]].
  - intros k Hk. rewrite P by lia.
    destruct (D n (le_n _)) as (_ & Hj & _). apply Hj. exact Hk.
  - rewrite P by lia. destruct (D n (le_n _)) as (_ & _ & Hle). exact Hle.
  - unfold period. rewrite R. exact Hmax.
  - intros k. unfold period. rewrite iter_add, R. reflexivity.
  - intros j k Hjk. rewrite !P by lia. nia.
Qed.

Lemma C7_up_sweep_sawtooth_witness :
  let s := set_currentSpeed 2 (set_currentFreqDelay 50 main_init) in
  currentPattern s = 0 /\ 0 <= currentSpeed s < 5 /\
  currentFreqDelay s = maxDelay s /\
  Z.to_nat (cdiv (maxDelay s - minDelay s) (step s)) = 9%nat /\
  currentFreqDelay (iter 9 update_sweep s) = 50 - 9 * 3 /\
  iter 10 update_sweep s = s.
Proof.
  intros s.
  assert (Hv : 0 <= currentSpeed s < 5) by (change (0 <= 2 < 5); lia).
  destruct (C7_up_sweep_sawtooth s eq_refl Hv eq_refl) as (P & _ & _ & _ & R & _).
  split; [reflexivity | split; [exact Hv | split; [reflexivity | split; [reflexivity|]]]].
  split; [exact (P 9%nat (le_n _)) | exact R].
Defined.

(** ** The band invariant *)

(** The tone generator writes its counter and the buzzer pins only. *)
Lemma generate_tone_frame (s : State) :
  currentRange (generate_tone s) = currentRange s /\
  currentFreqDelay (generate_tone s) = currentFreqDelay s /\
  currentPattern (generate_tone s) = currentPattern s /\
  currentSpeed (generate_tone s) = currentSpeed s.
Proof. unfold generate_tone. destruct (_ >=? _); repeat split; reflexivity. Qed.

(** The button handlers keep the period in its band: only the range
    handler writes it, with the initial period of the band it selects. *)
Lemma handleButtons_in_band (i : Inputs) (s : State) :
  in_band s -> in_band (handleButtons i s).
Proof.
  intros Hb. unfold in_band, minDelay, maxDelay in *.
  destruct (handleButtons_band i s) as [[R D]|[R D]]; rewrite R, D;
    [exact Hb|].
  destruct (currentRange s); band_arith.
Qed.

(** One call of [update_sweep] in a band-keeping case. *)
Lemma update_sweep_in_band (s : State) :
  in_band s -> keeps_band s = true -> in_band (update_sweep s).
Proof.
  intros Hb Hk. unfold keeps_band in Hk.
  destruct (dispatch s) as [E R|E R|E R|E R|E R|E R|E R|E R|E R|E R|E R|E R];
    rewrite R; clear R; try exact Hb; rewrite E in Hk; try discriminate Hk;
    try (apply Z.eqb_eq in Hk);
    unfold up_sweep, down_sweep, zig_zag, random, pulse, stepped, heartbeat,
      siren, siren_toggle, random_walk, simple_rand;
    split_ifs; band_fields; try rewrite Hk in *;
    try change (speedStep 0) with 1 in *;
    destruct (currentRange s); band_arith.
Qed.

(** An invariant of the button handlers and of the accepted cases of
    [update_sweep] is an invariant of the main loop. *)
Section RunInvariant.

Variable ok : State -> bool.
Variable Inv : State -> Prop.
Hypothesis Inv_buttons : forall i s, Inv s -> Inv (handleButtons i s).
Hypothesis Inv_tone : forall s, Inv s -> Inv (generate_tone s).
Hypothesis ok_tone : forall s, ok (generate_tone s) = ok s.
Hypothesis Inv_sweep : forall s, Inv s -> ok s = true -> Inv (update_sweep s).

Lemma sound_invariant (s : State) :
  Inv s -> (negb (isActive s) || ok s) = true -> Inv (sound s).
Proof.
  intros Hi Hk. unfold sound. destruct (isActive s); [|exact Hi].
  cbn [negb orb] in Hk. apply Inv_sweep.
  - apply Inv_tone. exact Hi.
  - rewrite ok_tone. exact Hk.
Qed.

Lemma run_invariant (ins : list Inputs) : forall s,
  Inv s -> all_sound ok s ins = true -> Inv (run s ins).
Proof.
  induction ins as [|i rest IH]; intros s Hi Hs; [exact Hi|].
  cbn [all_sound] in Hs. apply andb_prop in Hs. destruct Hs as [H1 H2].
  change (run s (i :: rest)) with (run (main_loop s i) rest).
  apply IH; [|exact H2].
  unfold main_loop. apply sound_invariant; [|exact H1].
  apply Inv_buttons. exact Hi.
Qed.

End RunInvariant.

(** C4, amended. The pattern-local statics persist.  A call of
    [update_sweep] changes only statics of the selected pattern and leaves
    those of every other pattern as they are: they do not advance while
    another pattern is selected.  The tone generator, the pattern handler and
    the whole button part of a pass never write a static, whichever pattern
    is selected, the press that switches away from a pattern included.  So
    over any number of passes in which the sound part runs only under other
    patterns, a pattern's statics keep their values, and the pattern resumes
    where it was left when it is selected again. *)
Theorem C4_counters_persist (s : State) (c : Counter) :
  (currentPattern s <> owner c -> counter c (update_sweep s) = counter c s) /\
  counter c (generate_tone s) = counter c s /\
  counter c (on_pattern s) = counter c s /\
  (forall i, counter c (handleButtons i s) = counter c s) /\
  (forall i, currentPattern (handleButtons i s) <> owner c ->
     counter c (main_loop s i) = counter c s) /\
  (forall ins, all_sound (other_selected c) s ins = true ->
     counter c (run s ins) = counter c s).
Proof.
  assert (B : forall i t, counter c (handleButtons i t) = counter c t)
    by (intros i t; unfold counter; rewrite handleButtons_mem; reflexivity).
  assert (G : forall t, counter c (generate_tone t) = counter c t)
    by (intros t; unfold counter; rewrite generate_tone_mem; reflexivity).
  split; [apply update_sweep_other_counter|].
  split; [apply G | split; [reflexivity | split; [intros i; apply B | split]]].
  - intros i Hp. unfold main_loop, sound.
    destruct (isActive (handleButtons i s)); [|apply B].
    destruct (generate_tone_frame (handleButtons i s)) as (_ & _ & GP & _).
    rewrite update_sweep_other_counter by (rewrite GP; exact Hp).
    rewrite G. apply B.
  - intros ins. revert s.
    intros s Hs.
    apply (run_invariant (other_selected c) (fun t => counter c t = counter c s));
      [ intros i t Ht; rewrite B; exact Ht
      | intros t Ht; rewrite G; exact Ht
      | intros t; unfold other_selected;
        destruct (generate_tone_frame t) as (_ & _ & -> & _); reflexivity
      | intros t Ht Ho; rewrite update_sweep_other_counter; [exact Ht|];
        unfold other_selected in Ho; lia
      | reflexivity
      | exact Hs ].
Qed.

Lemma C4_counters_persist_witness :
  let s := run main_init
             (presses 7 press_pattern ++ press_power :: repeat idle 4) in
  let t := handleButtons press_pattern s in
  let ins := press_pattern :: repeat idle 10 in
  (currentPattern s = owner HbCount /\ counter HbCount s = 5) /\
  (currentPattern t = 8 /\ counter HbCount t = 5) /\
  (currentPattern t <> owner HbCount /\
   counter HbCount (update_sweep t) = 5) /\
  (all_sound (other_selected HbCount) s ins = true /\
   counter HbCount (run s ins) = 5 /\ counter SirenCount (run s ins) = 11).
Proof.
  intros s t ins.
  assert (Ht : currentPattern t <> owner HbCount) by (change (8 <> 7); lia).
  assert (Hs : all_sound (other_selected HbCount) s ins = true)
    by (vm_compute; reflexivity).
  destruct (C4_counters_persist s HbCount) as (_ & _ & _ & Hb & _ & Hr).
  destruct (C4_counters_persist t HbCount) as (Hu & _).
  split; [split; reflexivity|].
  split; [split; [reflexivity | exact (eq_trans (Hb press_pattern) eq_refl)]|].
  split; [split; [exact Ht | exact (eq_trans (Hu Ht) eq_refl)]|].
  split; [exact Hs | split; [exact (eq_trans (Hr ins Hs) eq_refl) | reflexivity]].
Defined.

Lemma generate_tone_in_band (s : State) : in_band s -> in_band (generate_tone s).
Proof.
  intros Hb. destruct (generate_tone_frame s) as (GR & GD & _).
  unfold in_band, minDelay, maxDelay. rewrite GR, GD. exact Hb.
Qed.

Lemma generate_tone_keeps_band (s : State) :
  keeps_band (generate_tone s) = keeps_band s.
Proof.
  destruct (generate_tone_frame s) as (_ & _ & GP & GS).
  unfold keeps_band. rewrite GP, GS. reflexivity.
Qed.

(** *** The wider band of the sweeps *)

Lemma speedStep_bound (i : Z) : 0 <= speedStep i <= 8.
Proof.
  unfold speedStep, speedSteps.
  generalize (Z.to_nat i) as n. intros n.
  do 5 (destruct n as [|n]; cbn [nth]; [lia|]).
  destruct n; cbn [nth]; lia.
Qed.

Lemma handleButtons_near_band (i : Inputs) (s : State) :
  near_band s -> near_band (handleButtons i s).
Proof.
  intros Hb. unfold near_band, minDelay, maxDelay in *.
  destruct (handleButtons_band i s) as [[R D]|[R D]]; rewrite R, D;
    [exact Hb|].
  destruct (currentRange s); band_arith.
Qed.

Lemma generate_tone_near_band (s : State) :
  near_band s -> near_band (generate_tone s).
Proof.
  intros Hb. destruct (generate_tone_frame s) as (GR & GD & _).
  unfold near_band, minDelay, maxDelay. rewrite GR, GD. exact Hb.
Qed.

Lemma generate_tone_bounded_case (s : State) :
  bounded_case (generate_tone s) = bounded_case s.
Proof.
  destruct (generate_tone_frame s) as (_ & _ & GP & _).
  unfold bounded_case. rewrite GP. reflexivity.
Qed.

(** Outside Triangle and Chirps a call of [update_sweep] leaves the period
    less than one step outside the band, at any speed. *)
Lemma update_sweep_near_band (s : State) :
  near_band s -> bounded_case s = true -> near_band (update_sweep s).
Proof.
  intros Hb Hk. unfold bounded_case in Hk.
  pose proof (speedStep_bound (currentSpeed s)) as Hst.
  destruct (dispatch s) as [E R|E R|E R|E R|E R|E R|E R|E R|E R|E R|E R|E R];
    rewrite R; clear R; try exact Hb; rewrite E in Hk; try discriminate Hk;
    unfold near_band in *;
    unfold up_sweep, down_sweep, zig_zag, random, pulse, stepped, heartbeat,
      siren, siren_toggle, random_walk, simple_rand;
    split_ifs; band_fields;
    destruct (currentRange s); band_arith.
Qed.

(** Through Up Sweep, Down Sweep and Zig-Zag at any speed, and every case
    but Triangle and Chirps, the period stays within 7 of its band. *)
Lemma period_near_band (s : State) (ins : list Inputs) :
  near_band s -> all_sound bounded_case s ins = true -> near_band (run s ins).
Proof.
  apply run_invariant.
  - exact handleButtons_near_band.
  - exact generate_tone_near_band.
  - exact generate_tone_bounded_case.
  - exact update_sweep_near_band.
Qed.

(** C1 as stated fails.  Four speed presses, a power press and one more
    pass bring the device to pattern 0 (Up Sweep), low band, with the period
    at 21, below the band's minimum 25; the next pass hands that value to
    [generate_tone] unchanged. *)
Lemma C1_out_of_band_counterexample :
  let s := run main_init fast_up_sweep_trace in
  isActive s = true /\ currentPattern s = 0 /\ step s = 8 /\
  minDelay s = 25 /\ currentFreqDelay s = 21 /\
  currentFreqDelay (handleButtons idle s) = 21 /\
  ~ in_band (handleButtons idle s).
Proof.
  intros s. vm_compute.
  repeat (split; [reflexivity|]). intros [H _]. apply H. reflexivity.
Qed.

(** Triangle has no clamp either: from the low band's maximum with the
    direction still upward it steps to 51 and only reverses [freqStep]. *)
Lemma triangle_overshoot_kept :
  let s := set_currentFreqDelay 50 (set_currentPattern 6 main_init) in
  in_band s /\ currentFreqDelay (update_sweep s) = 51 /\
  freqStep (mem (update_sweep s)) = -1 /\ ~ in_band (update_sweep s).
Proof.
  intros s. vm_compute.
  split; [split; discriminate|].
  repeat (split; [reflexivity|]). intros [_ H]. apply H. reflexivity.
Qed.

(** C1, amended. As long as every pass of the main loop that reaches the
    sound part does so under pattern 3, 4, 5, 7, 8 or 10, or under pattern
    0, 1 or 2 at speed 0 (step 1), the period lies in the selected band
    after every pass and at every read by the tone generator. *)
Theorem C1_period_in_band (s : State) (ins : list Inputs) :
  in_band s -> band_safe s ins = true ->
  in_band (run s ins) /\
  (forall i, in_band (handleButtons i (run s ins))).
Proof.
  intros Hb Hs.
  assert (Hr : in_band (run s ins)).
  { revert s Hb Hs. apply run_invariant.
    - exact handleButtons_in_band.
    - exact generate_tone_in_band.
    - exact generate_tone_keeps_band.
    - exact update_sweep_in_band. }
  split; [exact Hr|].
  intros i. apply handleButtons_in_band. exact Hr.
Qed.

Lemma C1_period_in_band_witness :
  let ins := presses 3 press_pattern ++ press_power :: repeat idle 40 in
  in_band main_init /\ band_safe main_init ins = true /\
  in_band (run main_init ins).
Proof.
  intros ins.
  assert (Hb : in_band main_init)
    by (change (25 <= 37 <= 50); lia).
  assert (Hs : band_safe main_init ins = true) by (vm_compute; reflexivity).
  split; [exact Hb | split; [exact Hs|]].
  exact (proj1 (C1_period_in_band main_init ins Hb Hs)).
Defined.

(** ** Unsigned wrap-around in Chirps *)

(** C3 fails on the code.  In the high band at step 8 the device powers on
    under pattern 9 with the period at 13, above the minimum 9, and the
    first call subtracts 24 from it: the 16-bit result is 65525. *)
Theorem C3_chirps_subtraction_wraps :
  let s := handleButtons press_power (run main_init fast_high_chirps_setup) in
  isActive s = true /\ currentRange s = true /\ currentPattern s = 9 /\
  step s = 8 /\ chirpState (mem s) = 0 /\
  minDelay s = 9 /\ maxDelay s = 18 /\ currentFreqDelay s = 13 /\
  currentFreqDelay (update_sweep s) = 65525 /\
  currentFreqDelay (update_sweep s) = 13 - 3 * 8 + 65536 /\
  currentFreqDelay (main_loop (run main_init fast_high_chirps_setup) press_power)
  = 65525.
Proof.
  vm_compute. repeat split; reflexivity.
Qed.

(** C9 fails on the code, by the defect of C3.  In the high band at step 8
    the device powers on under pattern 9, falling, with the period at 13,
    above the minimum 9.  The call does not decrease the period by 24: it
    raises it to 65525 and stays falling, and the period comes to or below
    the minimum only 2731 calls later, at 5.  At step 5 the same period 13
    goes to 65534. *)
Theorem C9_chirps_falling_step_raises_period :
  let s := handleButtons press_power (run main_init fast_high_chirps_setup) in
  let q := set_currentSpeed 3 s in
  (isActive s = true /\ currentPattern s = 9 /\ chirpState (mem s) = 0 /\
   step s = 8 /\ minDelay s = 9 /\ currentFreqDelay s = 13) /\
  (currentFreqDelay (update_sweep s) = 65525 /\
   currentFreqDelay (update_sweep s) <> 13 - 3 * 8 /\
   currentFreqDelay s < currentFreqDelay (update_sweep s) /\
   chirpState (mem (update_sweep s)) = 0) /\
  (currentFreqDelay (iter 2730 update_sweep s) = 29 /\
   currentFreqDelay (iter 2731 update_sweep s) = 5 /\
   chirpState (mem (iter 2731 update_sweep s)) = 0 /\
   chirpState (mem (iter 2732 update_sweep s)) = 1) /\
  (step q = 5 /\ currentFreqDelay (update_sweep q) = 65534).
Proof.
  vm_compute.
  repeat match goal with
         | |- _ /\ _ => split
         | |- _ = _ => reflexivity
         | |- _ -> False => discriminate
         end.
Qed.

(** * Further properties of the program *)

(** ** What [update_sweep] and [generate_tone] leave alone *)

(** [update_sweep] never writes the selection, the button memories or the
    tone counter. *)
Lemma update_sweep_frame (s : State) :
  isActive (update_sweep s) = isActive s /\
  currentRange (update_sweep s) = currentRange s /\
  currentPattern (update_sweep s) = currentPattern s /\
  currentSpeed (update_sweep s) = currentSpeed s /\
  buttons (update_sweep s) = buttons s /\
  toneCounter (update_sweep s) = toneCounter s /\
  BUZZER_COMP (update_sweep s) = BUZZER_COMP s.
Proof.
  destruct (dispatch s) as [E R|E R|E R|E R|E R|E R|E R|E R|E R|E R|E R|E R];
    rewrite R; clear R;
    unfold up_sweep, down_sweep, zig_zag, random, pulse, stepped, triangle,
      heartbeat, siren, chirps, random_walk, simple_rand;
    split_ifs; repeat split; reflexivity.
Qed.

Lemma generate_tone_selection (s : State) :
  isActive (generate_tone s) = isActive s /\
  buttons (generate_tone s) = buttons s /\
  seed (generate_tone s) = seed s.
Proof. unfold generate_tone. destruct (_ >=? _); repeat split; reflexivity. Qed.

Lemma sound_selection (s : State) :
  isActive (sound s) = isActive s /\
  currentRange (sound s) = currentRange s /\
  currentPattern (sound s) = currentPattern s /\
  currentSpeed (sound s) = currentSpeed s /\
  buttons (sound s) = buttons s.
Proof.
  unfold sound. destruct (isActive s) eqn:A; [|repeat split; assumption].
  destruct (update_sweep_frame (generate_tone s)) as (FA & FR & FP & FS & FB & _).
  destruct (generate_tone_frame s) as (GR & _ & GP & GS).
  destruct (generate_tone_selection s) as (GA & GB & _).
  rewrite FA, FR, FP, FS, FB, GR, GP, GS, GA, GB. repeat split. exact A.
Qed.

(** ** Ranges of the variables *)

Lemma u16_range (z : Z) : 0 <= u16 z < 65536.
Proof. unfold u16. apply Z.mod_pos_bound. lia. Qed.

Lemma rand_next_range (sd : Z) : 0 <= rand_next sd < 65536.
Proof. unfold rand_next. apply u16_range. Qed.

Lemma wf_step (s : State) : wf s -> 1 <= step s <= 8.
Proof. intros (((_ & _) & Hv) & _). apply step_range. lia. Qed.

Ltac wf_open :=
  unfold wf in *;
  cbn [currentRange currentFreqDelay currentSpeed currentPattern isActive mem
       seed toneCounter buttons
       pulseCount stepCount freqStep hbCount sirenCount chirpState chirpCount
       walkCount
       set_isActive set_currentRange set_currentPattern set_currentSpeed
       set_sweepDirection set_currentFreqDelay set_seed set_toneCounter
       set_mem set_buttons set_BUZZER set_BUZZER_COMP upd_mem
       set_pulseCount set_stepCount set_freqStep set_hbCount set_sirenCount
       set_chirpState set_chirpCount set_walkCount] in *.

Ltac wf_close :=
  repeat match goal with
         | |- _ /\ _ => split
         end;
  try tauto; try apply u16_range; try apply rand_next_range;
  try (cbv [u16 u8 s16] in *; Z.to_euclidean_division_equations; lia).

Lemma generate_tone_wf (s : State) : wf s -> wf (generate_tone s).
Proof.
  intros H. unfold generate_tone. split_ifs; wf_open; wf_close.
Qed.

Lemma update_sweep_wf (s : State) : wf s -> wf (update_sweep s).
Proof.
  intros H. pose proof (wf_step s H) as Hst. unfold step in Hst.
  destruct (dispatch s) as [E R|E R|E R|E R|E R|E R|E R|E R|E R|E R|E R|E R];
    rewrite R; clear R; try exact H;
    unfold up_sweep, down_sweep, zig_zag, random, pulse, stepped, triangle,
      heartbeat, siren, siren_toggle, chirps, random_walk, simple_rand,
      minDelay, maxDelay, step;
    destruct (currentRange s);
    cbv [rangeParam bit_index rangeParams nth] in *;
    split_ifs; wf_open; wf_close.
Qed.

Lemma handleButtons_wf (i : Inputs) (s : State) : wf s -> wf (handleButtons i s).
Proof.
  intros H. unfold handleButtons.
  assert (P : forall pin t, wf t -> wf (button_PWR pin t)).
  { intros pin t Ht. unfold button_PWR, on_power. split_ifs; wf_open; wf_close. }
  assert (Q : forall pin t, wf t -> wf (button_PAT pin t)).
  { intros pin t Ht. unfold button_PAT, on_pattern. split_ifs; wf_open; wf_close. }
  assert (S : forall pin t, wf t -> wf (button_SPD pin t)).
  { intros pin t Ht. unfold button_SPD, on_speed. split_ifs; wf_open; wf_close. }
  assert (R : forall pin t, wf t -> wf (button_RNG pin t)).
  { intros pin t Ht. unfold button_RNG, on_range.
    destruct (currentRange t); cbv [rangeParam bit_index rangeParams nth negb];
      split_ifs; wf_open; wf_close. }
  apply R, S, Q, P, H.
Qed.

Lemma main_loop_wf (s : State) (i : Inputs) : wf s -> wf (main_loop s i).
Proof.
  intros H. unfold main_loop, sound.
  pose proof (handleButtons_wf i s H) as Hb.
  destruct (isActive (handleButtons i s)); [|exact Hb].
  apply update_sweep_wf, generate_tone_wf, Hb.
Qed.

Lemma run_wf (ins : list Inputs) : forall s, wf s -> wf (run s ins).
Proof.
  induction ins as [|i rest IH]; intros s H; [exact H|].
  change (run s (i :: rest)) with (run (main_loop s i) rest).
  apply IH, main_loop_wf, H.
Qed.

Lemma main_init_wf : wf main_init.
Proof. unfold wf. cbn. lia. Qed.

(** X1. Whatever the buttons do, the pattern index stays in 0..10 and the
    speed index in 0..4: the [switch] of [update_sweep] always finds its
    case and [speedSteps] is never read out of bounds. *)
Theorem selection_in_range (ins : list Inputs) :
  let s := run main_init ins in
  0 <= currentPattern s <= 10 /\ 0 <= currentSpeed s <= 4 /\
  In (step s) speedSteps /\
  (Z.to_nat (currentSpeed s) < length speedSteps)%nat.
Proof.
  intros s.
  destruct (run_wf ins main_init main_init_wf) as ((Hp & Hv) & _).
  fold s in Hp, Hv. split; [exact Hp | split; [exact Hv | split]].
  - unfold step. destruct (speedStep_values (currentSpeed s)) as [E|[E|[E|[E|E]]]];
      [lia | rewrite E; cbn; tauto ..].
  - cbn [length speedSteps]. lia.
Qed.


(** ** Buttons in the main loop *)

Lemma buttons_eta (b : Buttons) :
  mkButtons (last_PWR b) (last_PAT b) (last_SPD b) (last_RNG b) = b.
Proof. destruct b; reflexivity. Qed.

Lemma set_buttons_same (s : State) : set_buttons (buttons s) s = s.
Proof. destruct s; reflexivity. Qed.

Lemma checkButton_glitch (l : bool) :
  checkButton l (glitch (negb l)) = mkPoll l false 20.
Proof. destruct l; reflexivity. Qed.

(** X3. Noise on all four pins at once, each pin flipped at the first read
    and back at its stable level after the debounce delay, leaves the whole
    state as it was; the pass then only runs the sound part. *)
Theorem noise_is_ignored (s : State) :
  handleButtons (noise (buttons s)) s = s /\
  main_loop s (noise (buttons s)) = sound s.
Proof.
  assert (E : handleButtons (noise (buttons s)) s = s).
  { unfold handleButtons, noise. cbn [BTN_POWER BTN_PATTERN BTN_SPEED BTN_RANGE].
    unfold button_PWR. rewrite checkButton_glitch. cbn [poll_event poll_last].
    rewrite buttons_eta, set_buttons_same.
    unfold button_PAT. rewrite checkButton_glitch. cbn [poll_event poll_last].
    rewrite buttons_eta, set_buttons_same.
    unfold button_SPD. rewrite checkButton_glitch. cbn [poll_event poll_last].
    rewrite buttons_eta, set_buttons_same.
    unfold button_RNG. rewrite checkButton_glitch. cbn [poll_event poll_last].
    rewrite buttons_eta, set_buttons_same. reflexivity. }
  split; [exact E|]. unfold main_loop. rewrite E. reflexivity.
Qed.

Lemma run_app (s : State) (l1 l2 : list Inputs) :
  run s (l1 ++ l2) = run (run s l1) l2.
Proof. unfold run. apply fold_left_app. Qed.

(** One press of a button while the device is off, followed by a pass
    that sees it released, is exactly the button's handler. *)
Lemma press_release_off (s : State) :
  isActive s = false -> all_released (buttons s) ->
  run s [press_pattern; idle] = on_pattern s /\
  run s [press_speed; idle] = on_speed s /\
  run s [press_range; idle] = on_range s.
Proof.
  intros Ha (H1 & H2 & H3 & H4).
  destruct s as [a r p v d f sd tc m b bz bc]. destruct b as [b1 b2 b3 b4].
  cbn in Ha, H1, H2, H3, H4. subst. repeat split; reflexivity.
Qed.

Lemma handlers_keep_off (s : State) :
  isActive s = false -> all_released (buttons s) ->
  (isActive (on_pattern s) = false /\ all_released (buttons (on_pattern s))) /\
  (isActive (on_speed s) = false /\ all_released (buttons (on_speed s))) /\
  (isActive (on_range s) = false /\ all_released (buttons (on_range s))).
Proof. intros Ha Hb. repeat split; first [exact Ha | apply Hb]. Qed.

Lemma next_index (m x : Z) :
  0 < m < 256 -> 0 <= x < m ->
  (if u8 (x + 1) >=? m then 0 else u8 (x + 1)) = (x + 1) mod m.
Proof.
  intros Hm Hx. unfold u8. rewrite (Z.mod_small (x + 1) 256) by lia.
  destruct (Z.geb_spec (x + 1) m).
  - replace (x + 1) with m by lia. symmetry. apply Z.mod_same. lia.
  - symmetry. apply Z.mod_small. lia.
Qed.

(** X4. While the device is off, [k] presses of the pattern button step
    the pattern index [k] places round 0..10, and [k] presses of the speed
    button step the speed index [k] places round 0..4; eleven pattern presses
    or five speed presses select what was selected before. *)
Theorem presses_cycle (s : State) (k : nat) :
  isActive s = false -> all_released (buttons s) ->
  0 <= currentPattern s <= 10 -> 0 <= currentSpeed s <= 4 ->
  currentPattern (run s (presses k press_pattern))
  = (currentPattern s + Z.of_nat k) mod 11 /\
  currentSpeed (run s (presses k press_speed))
  = (currentSpeed s + Z.of_nat k) mod 5 /\
  run s (presses 11 press_pattern) = s /\
  run s (presses 5 press_speed) = s.
Proof.
  intros Ha Hb Hp Hv.
  assert (P : forall k t, isActive t = false -> all_released (buttons t) ->
              0 <= currentPattern t <= 10 ->
              currentPattern (run t (presses k press_pattern))
              = (currentPattern t + Z.of_nat k) mod 11).
  { clear. induction k as [|k IH]; intros t Ha Hb Hp.
    - cbn [presses run fold_left]. rewrite Z.add_0_r, Z.mod_small; lia.
    - cbn [presses].
      change (press_pattern :: idle :: presses k press_pattern)
        with ([press_pattern; idle] ++ presses k press_pattern).
      rewrite run_app.
      destruct (press_release_off t Ha Hb) as (-> & _ & _).
      destruct (handlers_keep_off t Ha Hb) as ((Ha' & Hb') & _).
      assert (N : currentPattern (on_pattern t) = (currentPattern t + 1) mod 11).
      { unfold on_pattern. cbn [currentPattern set_currentPattern].
        apply next_index; lia. }
      rewrite IH; [| exact Ha' | exact Hb'
                  | rewrite N; pose proof (Z.mod_pos_bound (currentPattern t + 1) 11); lia].
      rewrite N, Z.add_mod_idemp_l by lia. f_equal. lia. }
  assert (V : forall k t, isActive t = false -> all_released (buttons t) ->
              0 <= currentSpeed t <= 4 ->
              currentSpeed (run t (presses k press_speed))
              = (currentSpeed t + Z.of_nat k) mod 5).
  { clear. induction k as [|k IH]; intros t Ha Hb Hv.
    - cbn [presses run fold_left]. rewrite Z.add_0_r, Z.mod_small; lia.
    - cbn [presses].
      change (press_speed :: idle :: presses k press_speed)
        with ([press_speed; idle] ++ presses k press_speed).
      rewrite run_app.
      destruct (press_release_off t Ha Hb) as (_ & -> & _).
      destruct (handlers_keep_off t Ha Hb) as (_ & (Ha' & Hb') & _).
      assert (N : currentSpeed (on_speed t) = (currentSpeed t + 1) mod 5).
      { unfold on_speed. cbn [currentSpeed set_currentSpeed].
        apply next_index; lia. }
      rewrite IH; [| exact Ha' | exact Hb'
                  | rewrite N; pose proof (Z.mod_pos_bound (currentSpeed t + 1) 5); lia].
      rewrite N, Z.add_mod_idemp_l by lia. f_equal. lia. }
  split; [apply P; assumption | split; [apply V; assumption | split]].
  - destruct Hb as (H1 & H2 & H3 & H4).
    destruct s as [a r p v d f sd tc m b bz bc]. destruct b as [b1 b2 b3 b4].
    cbn in Ha, H1, H2, H3, H4, Hp. subst.
    assert (C : p = 0 \/ p = 1 \/ p = 2 \/ p = 3 \/ p = 4 \/ p = 5 \/ p = 6 \/
                p = 7 \/ p = 8 \/ p = 9 \/ p = 10) by lia.
    repeat (destruct C as [->|C]; [reflexivity|]). subst. reflexivity.
  - destruct Hb as (H1 & H2 & H3 & H4).
    destruct s as [a r p v d f sd tc m b bz bc]. destruct b as [b1 b2 b3 b4].
    cbn in Ha, H1, H2, H3, H4, Hv. subst.
    assert (C : v = 0 \/ v = 1 \/ v = 2 \/ v = 3 \/ v = 4) by lia.
    repeat (destruct C as [->|C]; [reflexivity|]). subst. reflexivity.
Qed.

Lemma presses_cycle_witness :
  isActive main_init = false /\ all_released (buttons main_init) /\
  currentPattern (run main_init (presses 14 press_pattern)) = 3 /\
  currentSpeed (run main_init (presses 7 press_speed)) = 2.
Proof.
  assert (Hb : all_released (buttons main_init)) by (repeat split; reflexivity).
  assert (Hp : 0 <= currentPattern main_init <= 10) by (change (0 <= 0 <= 10); lia).
  assert (Hv : 0 <= currentSpeed main_init <= 4) by (change (0 <= 0 <= 4); lia).
  split; [reflexivity | split; [exact Hb | split]].
  - exact (proj1 (presses_cycle main_init 14 eq_refl Hb Hp Hv)).
  - exact (proj1 (proj2 (presses_cycle main_init 7 eq_refl Hb Hp Hv))).
Defined.

(** A pass in which one button reads pressed and the others released:
    the handler runs if that button was last seen released, and nothing is
    selected anew if it was last seen pressed. *)
Lemma pressed_pass (s : State) :
  (selection (handleButtons press_power s)
   = (if last_PWR (buttons s) then selection (on_power s) else selection s) /\
   last_PWR (buttons (handleButtons press_power s)) = false) /\
  (selection (handleButtons press_pattern s)
   = (if last_PAT (buttons s) then selection (on_pattern s) else selection s) /\
   last_PAT (buttons (handleButtons press_pattern s)) = false) /\
  (selection (handleButtons press_speed s)
   = (if last_SPD (buttons s) then selection (on_speed s) else selection s) /\
   last_SPD (buttons (handleButtons press_speed s)) = false) /\
  (selection (handleButtons press_range s)
   = (if last_RNG (buttons s) then selection (on_range s) else selection s) /\
   last_RNG (buttons (handleButtons press_range s)) = false).
Proof.
  destruct s as [a r p v d f sd tc m b bz bc].
  destruct b as [[] [] [] []]; destruct a; repeat split; reflexivity.
Qed.

Lemma main_loop_selection (s : State) (i : Inputs) :
  selection (main_loop s i) = selection (handleButtons i s) /\
  buttons (main_loop s i) = buttons (handleButtons i s).
Proof.
  unfold main_loop, selection.
  destruct (sound_selection (handleButtons i s)) as (-> & -> & -> & -> & ->).
  split; reflexivity.
Qed.

(** X5. A button held down over any number of passes is one press: the
    first pass runs its handler and the later ones select nothing anew,
    whether the device is on or off. *)
Theorem held_button_one_event (s : State) (n : nat) :
  (last_PWR (buttons s) = true ->
   selection (run s (repeat press_power (S n))) = selection (on_power s)) /\
  (last_PAT (buttons s) = true ->
   selection (run s (repeat press_pattern (S n))) = selection (on_pattern s)) /\
  (last_SPD (buttons s) = true ->
   selection (run s (repeat press_speed (S n))) = selection (on_speed s)) /\
  (last_RNG (buttons s) = true ->
   selection (run s (repeat press_range (S n))) = selection (on_range s)).
Proof.
  assert (Hold :
    forall n t,
      (last_PWR (buttons t) = false ->
       selection (run t (repeat press_power n)) = selection t) /\
      (last_PAT (buttons t) = false ->
       selection (run t (repeat press_pattern n)) = selection t) /\
      (last_SPD (buttons t) = false ->
       selection (run t (repeat press_speed n)) = selection t) /\
      (last_RNG (buttons t) = false ->
       selection (run t (repeat press_range n)) = selection t)).
  { clear. induction n as [|n IH]; intros t; [repeat split; reflexivity|].
    destruct (pressed_pass t) as ((P1 & P2) & (Q1 & Q2) & (S1 & S2) & (R1 & R2)).
    cbn [repeat].
    repeat split; intros H;
      match goal with
      | |- selection (run t (?i :: ?rest)) = _ =>
          change (run t (i :: rest)) with (run (main_loop t i) rest);
          destruct (main_loop_selection t i) as [E B];
          destruct (IH (main_loop t i)) as (I1 & I2 & I3 & I4)
      end.
    - rewrite I1 by (rewrite B; exact P2). rewrite E, P1, H. reflexivity.
    - rewrite I2 by (rewrite B; exact Q2). rewrite E, Q1, H. reflexivity.
    - rewrite I3 by (rewrite B; exact S2). rewrite E, S1, H. reflexivity.
    - rewrite I4 by (rewrite B; exact R2). rewrite E, R1, H. reflexivity. }
  destruct (pressed_pass s) as ((P1 & P2) & (Q1 & Q2) & (S1 & S2) & (R1 & R2)).
  cbn [repeat].
  repeat split; intros H;
    match goal with
    | |- selection (run s (?i :: ?rest)) = _ =>
        change (run s (i :: rest)) with (run (main_loop s i) rest);
        destruct (main_loop_selection s i) as [E B];
        destruct (Hold n (main_loop s i)) as (I1 & I2 & I3 & I4)
    end.
  - rewrite I1 by (rewrite B; exact P2). rewrite E, P1, H. reflexivity.
  - rewrite I2 by (rewrite B; exact Q2). rewrite E, Q1, H. reflexivity.
  - rewrite I3 by (rewrite B; exact S2). rewrite E, S1, H. reflexivity.
  - rewrite I4 by (rewrite B; exact R2). rewrite E, R1, H. reflexivity.
Qed.

Lemma held_button_one_event_witness :
  last_PAT (buttons main_init) = true /\
  selection (run main_init (repeat press_pattern 5)) = (false, false, 1, 0).
Proof.
  split; [reflexivity|].
  exact (proj1 (proj2 (held_button_one_event main_init 4)) eq_refl).
Defined.

(** The first three buttons leave band, period and the range button's
    memory alone. *)
Lemma before_range_frame (i : Inputs) (s : State) :
  let t := button_SPD (BTN_SPEED i)
             (button_PAT (BTN_PATTERN i) (button_PWR (BTN_POWER i) s)) in
  currentRange t = currentRange s /\
  currentFreqDelay t = currentFreqDelay s /\
  last_RNG (buttons t) = last_RNG (buttons s).
Proof.
  unfold button_SPD, button_PAT, button_PWR, on_speed, on_pattern, on_power.
  split_ifs; repeat split; reflexivity.
Qed.

(** X6. A confirmed press of the range button selects the other band and
    loads that band's initial period (37 or 13), whatever the period was and
    whatever the other three buttons do in the same pass; the tone generator
    therefore always reads an in-band period right after a band switch. *)
Theorem range_press_resets_period (i : Inputs) (s : State) :
  last_RNG (buttons s) = true -> BTN_RANGE i = pressed ->
  let t := handleButtons i s in
  currentRange t = negb (currentRange s) /\
  currentFreqDelay t = (if currentRange s then 37 else 13) /\
  in_band t.
Proof.
  intros Hl Hp t. unfold t, handleButtons.
  destruct (before_range_frame i s) as (FR & _ & FL). cbv zeta in FR, FL.
  set (u := button_SPD (BTN_SPEED i)
              (button_PAT (BTN_PATTERN i) (button_PWR (BTN_POWER i) s))) in *.
  unfold button_RNG. rewrite Hp, FL, Hl.
  change (checkButton true pressed) with (mkPoll false true 20).
  cbn [poll_event poll_last]. unfold on_range, in_band, minDelay, maxDelay.
  cbn [currentRange currentFreqDelay set_currentFreqDelay set_currentRange
       set_buttons]. rewrite FR.
  destruct (currentRange s); cbn; repeat split; lia.
Qed.

Lemma range_press_resets_period_witness :
  let s := set_currentFreqDelay 21 main_init in
  last_RNG (buttons s) = true /\ BTN_RANGE press_range = pressed /\
  currentFreqDelay (handleButtons press_range s) = 13.
Proof.
  intros s. split; [reflexivity | split; [reflexivity|]].
  exact (proj1 (proj2 (range_press_resets_period press_range s eq_refl eq_refl))).
Defined.

(** The buttons other than power never write the power flag or the buzzer
    pin. *)
Lemma after_power_frame (i : Inputs) (s : State) :
  let t := button_RNG (BTN_RANGE i)
             (button_SPD (BTN_SPEED i) (button_PAT (BTN_PATTERN i) s)) in
  isActive t = isActive s /\ BUZZER t = BUZZER s.
Proof.
  unfold button_RNG, button_SPD, button_PAT, on_speed, on_pattern, on_range.
  split_ifs; repeat split; reflexivity.
Qed.

Lemma main_loop_quiet (s : State) (i : Inputs) :
  quiet_when_off s -> quiet_when_off (main_loop s i).
Proof.
  unfold quiet_when_off. intros Q H.
  destruct (sound_selection (handleButtons i s)) as (SA & _).
  unfold main_loop in *. rewrite SA in H.
  unfold sound. rewrite H. revert H. unfold handleButtons.
  destruct (after_power_frame i (button_PWR (BTN_POWER i) s)) as (-> & ->).
  unfold button_PWR, on_power.
  destruct (poll_event _); cbn [isActive BUZZER set_isActive set_buttons set_BUZZER].
  - destruct (isActive s); cbn; [reflexivity | discriminate].
  - exact Q.
Qed.

(** X7. Once the buzzer pin is low with the device off, it is low whenever
    the device is off: switching off drives the pin low at once, and nothing
    writes it until the device is switched on again.  (At power-up the pin is
    high, port 3 being initialised to 0xFF.) *)
Theorem buzzer_low_when_off (s : State) (ins : list Inputs) :
  quiet_when_off s -> quiet_when_off (run s ins).
Proof.
  revert s. induction ins as [|i rest IH]; intros s Q; [exact Q|].
  change (run s (i :: rest)) with (run (main_loop s i) rest).
  apply IH, main_loop_quiet, Q.
Qed.

Lemma buzzer_low_when_off_witness :
  let s := run main_init [press_power; idle] in
  let ins := repeat idle 7 ++ [press_power; idle; idle] in
  isActive s = true /\ quiet_when_off s /\
  isActive (run s ins) = false /\ BUZZER (run s ins) = false.
Proof.
  intros s ins.
  assert (Q : quiet_when_off s) by (intros H; discriminate H).
  split; [reflexivity | split; [exact Q | split; [reflexivity|]]].
  exact (buzzer_low_when_off s ins Q eq_refl).
Defined.

(** ** The tone generator *)

Lemma divmod_succ (p a : Z) :
  0 < p ->
  (a mod p + 1 = p -> (a + 1) mod p = 0 /\ (a + 1) / p = a / p + 1) /\
  (a mod p + 1 < p -> (a + 1) mod p = a mod p + 1 /\ (a + 1) / p = a / p).
Proof.
  intros Hp. pose proof (Z.div_mod a p ltac:(lia)) as D.
  pose proof (Z.mod_pos_bound a p Hp) as B.
  split; intros H.
  - split; [symmetry; apply (Z.mod_unique_pos _ _ (a / p + 1)); lia
           | symmetry; apply (Z.div_unique_pos _ _ _ 0); lia].
  - split; [symmetry; apply (Z.mod_unique_pos _ _ (a / p)); lia
           | symmetry; apply (Z.div_unique_pos _ _ _ (a mod p + 1)); lia].
Qed.

Lemma generate_tone_step (s : State) :
  0 <= toneCounter s < currentFreqDelay s -> currentFreqDelay s < 65536 ->
  currentFreqDelay (generate_tone s) = currentFreqDelay s /\
  (toneCounter s + 1 = currentFreqDelay s ->
   toneCounter (generate_tone s) = 0 /\
   BUZZER (generate_tone s) = negb (BUZZER s) /\
   BUZZER_COMP (generate_tone s) = negb (BUZZER_COMP s)) /\
  (toneCounter s + 1 < currentFreqDelay s ->
   toneCounter (generate_tone s) = toneCounter s + 1 /\
   BUZZER (generate_tone s) = BUZZER s /\
   BUZZER_COMP (generate_tone s) = BUZZER_COMP s).
Proof.
  intros Hc Hp. unfold generate_tone. rewrite u16_small by lia.
  destruct (Z.geb_spec (toneCounter s + 1) (currentFreqDelay s));
    repeat split; intros; try reflexivity; lia.
Qed.

(** X8. With the period held at [p >= 1], the tone generator counts calls
    modulo [p] and flips both buzzer pins on every [p]-th call: after [n]
    calls the counter is [(c + n) mod p] and each pin has been flipped
    [(c + n) / p] times, [c] being the counter at the start. *)
Theorem tone_toggles_every_period (s : State) (n : nat) :
  0 <= toneCounter s < currentFreqDelay s -> currentFreqDelay s < 65536 ->
  let p := currentFreqDelay s in
  let a := toneCounter s + Z.of_nat n in
  let s' := iter n generate_tone s in
  toneCounter s' = a mod p /\
  BUZZER s' = xorb (BUZZER s) (Z.odd (a / p)) /\
  BUZZER_COMP s' = xorb (BUZZER_COMP s) (Z.odd (a / p)) /\
  currentFreqDelay s' = p.
Proof.
  intros Hc Hp p. induction n as [|n IH].
  - cbn [iter Z.of_nat]. rewrite Z.add_0_r, Z.mod_small, Z.div_small by exact Hc.
    cbn [Z.odd]. rewrite !xorb_false_r. repeat split; reflexivity.
  - cbv zeta in *. cbn [iter]. destruct IH as (IC & IB & IK & IP).
    set (t := iter n generate_tone s) in *.
    replace (toneCounter s + Z.of_nat (S n))
      with (toneCounter s + Z.of_nat n + 1) by lia.
    set (a := toneCounter s + Z.of_nat n) in *.
    assert (Hpos : 0 < p) by (unfold p; lia).
    pose proof (Z.mod_pos_bound a p Hpos) as Hb.
    destruct (generate_tone_step t) as (GP & Gwrap & Gnext);
      [rewrite IC, IP; exact Hb | rewrite IP; exact Hp |].
    destruct (divmod_succ p a Hpos) as [Dw Dn].
    rewrite GP, IP. rewrite IC, IP in Gwrap, Gnext.
    destruct (Z.eq_dec (a mod p + 1) p) as [E|N].
    + destruct (Gwrap E) as (-> & -> & ->). destruct (Dw E) as [-> ->].
      rewrite IB, IK, Z.odd_add. cbn [Z.odd].
      repeat split; destruct (Z.odd (a / p)), (BUZZER s), (BUZZER_COMP s);
        reflexivity.
    + destruct (Gnext ltac:(lia)) as (-> & -> & ->).
      destruct (Dn ltac:(lia)) as [-> ->]. rewrite IB, IK.
      repeat split; reflexivity.
Qed.

Lemma tone_toggles_every_period_witness :
  let s := main_init in
  0 <= toneCounter s < currentFreqDelay s /\ currentFreqDelay s < 65536 /\
  toneCounter (iter 100 generate_tone s) = 26 /\
  BUZZER (iter 100 generate_tone s) = true.
Proof.
  intros s.
  assert (Hc : 0 <= toneCounter s < currentFreqDelay s)
    by (change (0 <= 0 < 37); lia).
  assert (Hp : currentFreqDelay s < 65536) by (change (37 < 65536); lia).
  destruct (tone_toggles_every_period s 100 Hc Hp) as (C & B & _).
  split; [exact Hc | split; [exact Hp | split; [exact C | exact B]]].
Defined.

(** X9. A period of 0 or 1 does not stall the tone generator: every call
    flips both pins and leaves the counter at 0. *)
Theorem tone_smallest_periods (s : State) :
  currentFreqDelay s <= 1 -> 0 <= toneCounter s < 65535 ->
  toneCounter (generate_tone s) = 0 /\
  BUZZER (generate_tone s) = negb (BUZZER s) /\
  BUZZER_COMP (generate_tone s) = negb (BUZZER_COMP s).
Proof.
  intros Hp Hc. unfold generate_tone. rewrite u16_small by lia.
  destruct (Z.geb_spec (toneCounter s + 1) (currentFreqDelay s));
    [repeat split; reflexivity | lia].
Qed.

Lemma tone_smallest_periods_witness :
  let s := set_currentFreqDelay 0 main_init in
  currentFreqDelay s <= 1 /\ 0 <= toneCounter s < 65535 /\
  BUZZER (generate_tone s) = false.
Proof.
  intros s.
  assert (Hp : currentFreqDelay s <= 1) by (change (0 <= 1); lia).
  assert (Hc : 0 <= toneCounter s < 65535) by (change (0 <= 0 < 65535); lia).
  split; [exact Hp | split; [exact Hc|]].
  exact (proj1 (proj2 (tone_smallest_periods s Hp Hc))).
Defined.

(** *** The pair of buzzer pins *)

Lemma update_sweep_buzzer (s : State) :
  currentPattern s <> 4 -> BUZZER (update_sweep s) = BUZZER s.
Proof.
  intros Hp.
  destruct (dispatch s) as [E R|E R|E R|E R|E R|E R|E R|E R|E R|E R|E R|E R];
    rewrite R; clear R; try congruence;
    unfold up_sweep, down_sweep, zig_zag, random, stepped, triangle,
      heartbeat, siren, chirps, random_walk, simple_rand;
    split_ifs; reflexivity.
Qed.

(** X10. In this build the sound part of a pass, under any pattern but
    Pulse, flips both buzzer pins or neither, so it never changes whether
    the two pins agree: starting from equal levels, as port 3 has them at
    power-up, the second pin repeats the first instead of complementing
    it. *)
Theorem buzzer_pair_moves_together (s : State) :
  currentPattern s <> 4 ->
  xorb (BUZZER (sound s)) (BUZZER_COMP (sound s))
  = xorb (BUZZER s) (BUZZER_COMP s) /\
  (BUZZER s = BUZZER_COMP s -> BUZZER (sound s) = BUZZER_COMP (sound s)).
Proof.
  intros Hp.
  assert (X : xorb (BUZZER (sound s)) (BUZZER_COMP (sound s))
              = xorb (BUZZER s) (BUZZER_COMP s)).
  { unfold sound. destruct (isActive s); [|reflexivity].
    destruct (generate_tone_frame s) as (_ & _ & GP & _).
    destruct (update_sweep_frame (generate_tone s)) as (_ & _ & _ & _ & _ & _ & ->).
    rewrite update_sweep_buzzer by (rewrite GP; exact Hp).
    unfold generate_tone. split_ifs; cbn; [|reflexivity].
    destruct (BUZZER s), (BUZZER_COMP s); reflexivity. }
  split; [exact X|]. intros E. rewrite E in X.
  destruct (BUZZER (sound s)), (BUZZER_COMP (sound s)), (BUZZER_COMP s);
    cbn in X; congruence.
Qed.

Lemma buzzer_pair_moves_together_witness :
  let s := run main_init (press_power :: repeat idle 36) in
  currentPattern s <> 4 /\ BUZZER s = BUZZER_COMP s /\
  BUZZER (sound s) = false /\ BUZZER_COMP (sound s) = false.
Proof.
  intros s.
  assert (Hp : currentPattern s <> 4) by (change (0 <> 4); lia).
  assert (E : BUZZER s = BUZZER_COMP s) by reflexivity.
  pose proof (proj2 (buzzer_pair_moves_together s Hp) E) as X.
  split; [exact Hp | split; [exact E | split; [reflexivity|]]].
  rewrite <- X. reflexivity.
Defined.

(** X11. In the Keil build a toggle of the tone generator leaves the two
    pins complementary whatever their levels were, and a call that does not
    toggle leaves both as they are; so complementary pins stay
    complementary. *)
Theorem keil_tone_complementary (s : State) :
  (u16 (toneCounter s + 1) >= currentFreqDelay s ->
   complementary (Keil.generate_tone s) /\
   BUZZER (Keil.generate_tone s) = negb (BUZZER s)) /\
  (u16 (toneCounter s + 1) < currentFreqDelay s ->
   BUZZER (Keil.generate_tone s) = BUZZER s /\
   BUZZER_COMP (Keil.generate_tone s) = BUZZER_COMP s) /\
  (complementary s -> complementary (Keil.generate_tone s)) /\
  (complementary s -> currentPattern s <> 4 -> complementary (Keil.sound s)) /\
  complementary Keil.main_init.
Proof.
  assert (G : complementary s -> complementary (Keil.generate_tone s)).
  { unfold complementary, Keil.generate_tone.
    destruct (_ >=? _); intros; [reflexivity | assumption]. }
  split; [|split; [|split; [exact G | split; [|reflexivity]]]].
  - unfold complementary, Keil.generate_tone.
    destruct (Z.geb_spec (u16 (toneCounter s + 1)) (currentFreqDelay s));
      intros; [split; reflexivity | lia].
  - unfold Keil.generate_tone.
    destruct (Z.geb_spec (u16 (toneCounter s + 1)) (currentFreqDelay s));
      intros; [lia | split; reflexivity].
  - intros C Hp. unfold Keil.sound. destruct (isActive s); [|exact C].
    unfold complementary.
    destruct (update_sweep_frame (Keil.generate_tone s))
      as (_ & _ & _ & _ & _ & _ & ->).
    rewrite update_sweep_buzzer; [exact (G C)|].
    unfold Keil.generate_tone. destruct (_ >=? _); exact Hp.
Qed.

Lemma keil_tone_complementary_witness :
  let s := set_currentFreqDelay 1 (set_BUZZER false main_init) in
  u16 (toneCounter s + 1) >= currentFreqDelay s /\
  BUZZER s = false /\ BUZZER_COMP s = true /\
  BUZZER (Keil.generate_tone s) = true /\
  BUZZER_COMP (Keil.generate_tone s) = false.
Proof.
  intros s.
  assert (H : u16 (toneCounter s + 1) >= currentFreqDelay s)
    by (change (1 >= 1); lia).
  destruct (proj1 (keil_tone_complementary s) H) as [C B].
  split; [exact H | split; [reflexivity | split; [reflexivity | split]]].
  - exact B.
  - exact C.
Defined.

(** ** The sweeps not covered so far *)

(** X12. Down Sweep is the mirror image of Up Sweep: from the period at
    [min], with [n = ceil((max - min) / step)], the first [n] calls each add
    one step, the period after them is at or above [max] (above it by less
    than a step), and call [n + 1] loads [min] again and restores the whole
    state. *)
Theorem down_sweep_sawtooth (s : State) :
  currentPattern s = 1 -> 0 <= currentSpeed s <= 4 ->
  currentFreqDelay s = minDelay s ->
  let n := Z.to_nat (cdiv (maxDelay s - minDelay s) (step s)) in
  periods (S n) update_sweep s
  = map (fun k => minDelay s + Z.of_nat k * step s) (seq 0 (S n)) /\
  maxDelay s <= currentFreqDelay (iter n update_sweep s) < maxDelay s + step s /\
  iter (S n) update_sweep s = s.
Proof.
  intros Hp Hv Hd. enumerate_configs s Hv; vm_compute;
    (split; [reflexivity | split; [split; [discriminate | reflexivity]
                                  | reflexivity]]).
Qed.

Lemma down_sweep_sawtooth_witness :
  let s := set_currentSpeed 4 (set_currentFreqDelay 25
             (set_currentPattern 1 main_init)) in
  currentPattern s = 1 /\ 0 <= currentSpeed s <= 4 /\
  currentFreqDelay s = minDelay s /\
  periods 5 update_sweep s = [25; 33; 41; 49; 57] /\
  iter 5 update_sweep s = s.
Proof.
  intros s.
  assert (Hv : 0 <= currentSpeed s <= 4) by (change (0 <= 4 <= 4); lia).
  destruct (down_sweep_sawtooth s eq_refl Hv eq_refl) as (P & _ & R).
  split; [reflexivity | split; [exact Hv | split; [reflexivity | split]]].
  - exact P.
  - exact R.
Defined.

(** X13. Zig-Zag from the period at [max], moving down: [n] calls step
    down to [max - n * step], at or below [min]; the next call only turns
    the direction; [n] calls step back up and land on [max] exactly; one more
    call turns again and restores the whole state.  The cycle is
    [2 * n + 2] calls long and the period never exceeds [max]. *)
Theorem zig_zag_cycle (s : State) :
  currentPattern s = 2 -> 0 <= currentSpeed s <= 4 ->
  sweepDirection s = false -> currentFreqDelay s = maxDelay s ->
  let n := Z.to_nat (cdiv (maxDelay s - minDelay s) (step s)) in
  periods (2 * n + 2) update_sweep s
  = map (fun k => maxDelay s - Z.of_nat k * step s) (seq 0 (S n)) ++
    map (fun k => maxDelay s - Z.of_nat n * step s + Z.of_nat k * step s)
        (seq 0 (S n)) /\
  directions (2 * n + 2) update_sweep s
  = repeat false (S n) ++ repeat true (S n) /\
  currentFreqDelay (iter n update_sweep s) <= minDelay s /\
  iter (2 * n + 2) update_sweep s = s.
Proof.
  intros Hp Hv Hd Hm. enumerate_configs s Hv; vm_compute;
    (split; [reflexivity | split; [reflexivity
                                  | split; [discriminate | reflexivity]]]).
Qed.

Lemma zig_zag_cycle_witness :
  let s := set_currentSpeed 4 (set_currentFreqDelay 50
             (set_currentPattern 2 main_init)) in
  currentPattern s = 2 /\ 0 <= currentSpeed s <= 4 /\
  sweepDirection s = false /\ currentFreqDelay s = maxDelay s /\
  periods 10 update_sweep s = [50; 42; 34; 26; 18; 18; 26; 34; 42; 50] /\
  iter 10 update_sweep s = s.
Proof.
  intros s.
  assert (Hv : 0 <= currentSpeed s <= 4) by (change (0 <= 4 <= 4); lia).
  destruct (zig_zag_cycle s eq_refl Hv eq_refl eq_refl) as (P & _ & _ & R).
  split; [reflexivity | split; [exact Hv | split; [reflexivity | split;
    [reflexivity | split]]]].
  - exact P.
  - exact R.
Defined.

(** X14. Triangle from the period at [max], moving down: [n] calls step
    down to [max - n * step], at or below [min], the last of them reversing
    [freqStep] in the same call; [n] more calls step back up to [max]
    exactly, the last of them reversing again and restoring the whole state.
    The cycle is [2 * n] calls long, without the turning calls of
    Zig-Zag. *)
Theorem triangle_cycle (s : State) :
  currentPattern s = 6 -> 0 <= currentSpeed s <= 4 ->
  freqStep (mem s) = -1 -> currentFreqDelay s = maxDelay s ->
  let n := Z.to_nat (cdiv (maxDelay s - minDelay s) (step s)) in
  periods (2 * n) update_sweep s
  = map (fun k => maxDelay s - Z.of_nat k * step s) (seq 0 n) ++
    map (fun k => maxDelay s - Z.of_nat n * step s + Z.of_nat k * step s)
        (seq 0 n) /\
  freqStep (mem (iter n update_sweep s)) = 1 /\
  currentFreqDelay (iter n update_sweep s) <= minDelay s /\
  iter (2 * n) update_sweep s = s.
Proof.
  intros Hp Hv Hd Hm. enumerate_configs s Hv; vm_compute;
    (split; [reflexivity | split; [reflexivity
                                  | split; [discriminate | reflexivity]]]).
Qed.

Lemma triangle_cycle_witness :
  let s := upd_mem (set_freqStep (-1))
             (set_currentSpeed 4 (set_currentFreqDelay 50
                (set_currentPattern 6 main_init))) in
  currentPattern s = 6 /\ 0 <= currentSpeed s <= 4 /\
  freqStep (mem s) = -1 /\ currentFreqDelay s = maxDelay s /\
  periods 8 update_sweep s = [50; 42; 34; 26; 18; 26; 34; 42] /\
  iter 8 update_sweep s = s.
Proof.
  intros s.
  assert (Hv : 0 <= currentSpeed s <= 4) by (change (0 <= 4 <= 4); lia).
  destruct (triangle_cycle s eq_refl Hv eq_refl eq_refl) as (P & _ & _ & R).
  split; [reflexivity | split; [exact Hv | split; [reflexivity | split;
    [reflexivity | split]]]].
  - exact P.
  - exact R.
Defined.

(** One call of Triangle with [freqStep] 1 or -1. *)
Lemma triangle_call (s : State) :
  currentPattern s = 6 -> 0 <= currentSpeed s <= 4 ->
  freqStep (mem s) = 1 \/ freqStep (mem s) = -1 ->
  let p := u16 (currentFreqDelay s + freqStep (mem s) * step s) in
  update_sweep s =
  if (p <=? minDelay s) || (p >=? maxDelay s)
  then upd_mem (set_freqStep (- freqStep (mem s))) (set_currentFreqDelay p s)
  else set_currentFreqDelay p s.
Proof.
  intros Hp Hv Hf p.
  assert (E : update_sweep s = triangle s).
  { destruct (dispatch s); try congruence; lia. }
  pose proof (step_range s ltac:(lia)) as Hst.
  rewrite E. unfold triangle.
  rewrite (s16_small (freqStep (mem s) * step s)) by (destruct Hf as [F|F]; rewrite F; lia).
  rewrite (s16_small (- freqStep (mem s))) by (destruct Hf as [F|F]; rewrite F; lia).
  reflexivity.
Qed.

(** X15. Triangle entered at or beyond a bound while still moving outward
    never sweeps: with the period at or above [max] and [freqStep] 1 (or at
    or below [min] and [freqStep] -1) the first call steps further out, in
    16-bit unsigned arithmetic, and reverses; the second steps back onto the
    starting period and reverses again, and the state is what it was.  The
    period alternates between the two values for as long as speed and band
    stay the same, also when the outward step wraps past 0 or 65535. *)
Theorem triangle_locks_at_bound (s : State) (k : nat) :
  currentPattern s = 6 -> 0 <= currentSpeed s <= 4 ->
  0 <= currentFreqDelay s < 65536 ->
  (freqStep (mem s) = 1 /\ maxDelay s <= currentFreqDelay s) \/
  (freqStep (mem s) = -1 /\ currentFreqDelay s <= minDelay s) ->
  currentFreqDelay (update_sweep s)
  = u16 (currentFreqDelay s + freqStep (mem s) * step s) /\
  freqStep (mem (update_sweep s)) = - freqStep (mem s) /\
  iter 2 update_sweep s = s /\
  iter (2 * k) update_sweep s = s.
Proof.
  intros Hp Hv Hd Hcase.
  pose proof (step_range s ltac:(lia)) as Hst.
  assert (Hf : freqStep (mem s) = 1 \/ freqStep (mem s) = -1)
    by (destruct Hcase as [[F _]|[F _]]; rewrite F; auto).
  pose proof (triangle_call s Hp Hv Hf) as C1. cbv zeta in C1.
  set (p1 := u16 (currentFreqDelay s + freqStep (mem s) * step s)) in *.
  assert (B : ((p1 <=? minDelay s) || (p1 >=? maxDelay s)) = true).
  { apply orb_true_iff. unfold p1, u16.
    destruct (band_bounds s) as [[L H]|[L H]]; rewrite L, H in *;
      destruct Hcase as [[F G]|[F G]]; rewrite F;
      rewrite Z.leb_le, Z.geb_le;
      Z.to_euclidean_division_equations; lia. }
  rewrite B in C1.
  set (t := upd_mem (set_freqStep (- freqStep (mem s)))
              (set_currentFreqDelay p1 s)) in C1.
  assert (Tm : minDelay t = minDelay s) by reflexivity.
  assert (TM : maxDelay t = maxDelay s) by reflexivity.
  assert (Ts : step t = step s) by reflexivity.
  assert (Td : currentFreqDelay t = p1) by reflexivity.
  assert (Tfs : freqStep (mem t) = - freqStep (mem s)) by reflexivity.
  assert (Tf : freqStep (mem t) = 1 \/ freqStep (mem t) = -1)
    by (rewrite Tfs; destruct Hf as [F|F]; rewrite F; auto).
  assert (Back : u16 (currentFreqDelay t + freqStep (mem t) * step t)
                 = currentFreqDelay s).
  { rewrite Td, Tfs, Ts. unfold p1, u16.
    set (d := freqStep (mem s) * step s).
    replace (- freqStep (mem s) * step s) with (- d) by (unfold d; ring).
    Z.to_euclidean_division_equations. lia. }
  pose proof (triangle_call t Hp Hv Tf) as C2. cbv zeta in C2.
  rewrite Back, Tm, TM in C2.
  assert (B2 : ((currentFreqDelay s <=? minDelay s)
                || (currentFreqDelay s >=? maxDelay s)) = true).
  { apply orb_true_iff. destruct Hcase as [[F G]|[F G]].
    - right. apply Z.geb_le. exact G.
    - left. apply Z.leb_le. exact G. }
  rewrite B2, Tfs, Z.opp_involutive in C2.
  assert (Two : iter 2 update_sweep s = s).
  { cbn [iter]. rewrite C1, C2. unfold t. clear.
    destruct s as [a r p v d f sd tc m b bz bc].
    destruct m as [c1 c2 fs c4 c5 c6 c7 c8]. reflexivity. }
  split; [rewrite C1; exact Td | split; [rewrite C1; exact Tfs | split; [exact Two|]]].
  induction k as [|k IH]; [reflexivity|].
  replace (2 * S k)%nat with (2 + 2 * k)%nat by lia.
  rewrite iter_add, IH. exact Two.
Qed.

Lemma triangle_locks_at_bound_witness :
  let s := handleButtons press_power (run main_init triangle_at_max_setup) in
  let w := upd_mem (set_freqStep (-1))
             (set_currentFreqDelay 2
                (set_currentSpeed 4 (set_currentRange true
                   (set_currentPattern 6 main_init)))) in
  (isActive s = true /\ currentPattern s = 6 /\ 0 <= currentSpeed s <= 4 /\
   0 <= currentFreqDelay s < 65536 /\
   freqStep (mem s) = 1 /\ maxDelay s <= currentFreqDelay s /\
   periods 5 update_sweep s = [50; 51; 50; 51; 50] /\
   iter 100 update_sweep s = s) /\
  (currentPattern w = 6 /\ 0 <= currentSpeed w <= 4 /\
   0 <= currentFreqDelay w < 65536 /\
   freqStep (mem w) = -1 /\ currentFreqDelay w <= minDelay w /\
   currentFreqDelay (update_sweep w) = 65530 /\
   periods 5 update_sweep w = [2; 65530; 2; 65530; 2] /\
   iter 2 update_sweep w = w).
Proof.
  intros s w.
  assert (Hv : 0 <= currentSpeed s <= 4) by (change (0 <= 0 <= 4); lia).
  assert (Hd : 0 <= currentFreqDelay s < 65536) by (change (0 <= 50 < 65536); lia).
  assert (Hm : maxDelay s <= currentFreqDelay s) by (change (50 <= 50); lia).
  assert (Wv : 0 <= currentSpeed w <= 4) by (change (0 <= 4 <= 4); lia).
  assert (Wd : 0 <= currentFreqDelay w < 65536) by (change (0 <= 2 < 65536); lia).
  assert (Wm : currentFreqDelay w <= minDelay w) by (change (2 <= 9); lia).
  destruct (triangle_locks_at_bound s 50 eq_refl Hv Hd
              (or_introl (conj eq_refl Hm))) as (_ & _ & _ & R).
  destruct (triangle_locks_at_bound w 1 eq_refl Wv Wd
              (or_intror (conj eq_refl Wm))) as (P1 & _ & R2 & _).
  split.
  - split; [reflexivity | split; [reflexivity | split; [exact Hv | split;
      [exact Hd | split; [reflexivity | split; [exact Hm | split;
      [reflexivity | exact R]]]]]]].
  - split; [reflexivity | split; [exact Wv | split; [exact Wd | split;
      [reflexivity | split; [exact Wm | split; [exact (eq_trans P1 eq_refl)
      | split; [reflexivity | exact R2]]]]]]].
Defined.

(** ** Pulse *)

(** X16. Under Pulse the buzzer pin after each pass is set by the pulse
    counter alone, whatever the tone generator did to it in the same pass:
    after [n] passes the counter is [n mod 500] and the pin is high exactly
    when that is below 50, one tenth of the cycle; the period is never
    written. *)
Theorem pulse_duty_cycle (s : State) (n : nat) :
  isActive s = true -> currentPattern s = 4 -> pulseCount (mem s) = 0 ->
  let s' := iter (S n) sound s in
  pulseCount (mem s') = Z.of_nat (S n) mod 500 /\
  BUZZER s' = (Z.of_nat (S n) mod 500 <? 50) /\
  currentFreqDelay s' = currentFreqDelay s.
Proof.
  intros Ha Hp H0.
  assert (I : forall k, let t := iter k sound s in
              isActive t = true /\ currentPattern t = 4 /\
              pulseCount (mem t) = Z.of_nat k mod 500 /\
              currentFreqDelay t = currentFreqDelay s /\
              (k <> O -> BUZZER t = (Z.of_nat k mod 500 <? 50))).
  { induction k as [|k IH]; [cbn [iter]; repeat split; try assumption; congruence|].
    cbv zeta in *. cbn [iter]. destruct IH as (IA & IP & IC & ID & _).
    set (t := iter k sound s) in *.
    destruct (generate_tone_frame t) as (_ & GD & GP & _).
    assert (E : update_sweep (generate_tone t) = pulse (generate_tone t)).
    { destruct (dispatch (generate_tone t)); try congruence; lia. }
    assert (Es : sound t = pulse (generate_tone t))
      by (unfold sound; rewrite IA; exact E).
    rewrite Es. unfold pulse. rewrite generate_tone_mem.
    pose proof (count_mod 500 (Z.of_nat k) (pulseCount (mem t))
                  ltac:(lia) ltac:(lia) IC) as Hc.
    replace (Z.of_nat k + 1) with (Z.of_nat (S k)) in Hc by lia.
    rewrite Hc.
    cbn [isActive currentPattern currentFreqDelay mem pulseCount BUZZER
         set_BUZZER upd_mem set_mem set_pulseCount].
    destruct (generate_tone_selection t) as (GA & _).
    rewrite GA, GP, GD. repeat split; assumption. }
  intros s'. destruct (I (S n)) as (_ & _ & C & D & B).
  split; [exact C | split; [apply B; discriminate | exact D]].
Qed.

Lemma pulse_duty_cycle_witness :
  let s := set_isActive true (set_currentPattern 4 main_init) in
  isActive s = true /\ currentPattern s = 4 /\ pulseCount (mem s) = 0 /\
  BUZZER (iter 49 sound s) = true /\ BUZZER (iter 50 sound s) = false /\
  BUZZER (iter 500 sound s) = true.
Proof.
  intros s.
  destruct (pulse_duty_cycle s 48 eq_refl eq_refl eq_refl) as (_ & B49 & _).
  destruct (pulse_duty_cycle s 49 eq_refl eq_refl eq_refl) as (_ & B50 & _).
  destruct (pulse_duty_cycle s 499 eq_refl eq_refl eq_refl) as (_ & B500 & _).
  split; [reflexivity | split; [reflexivity | split; [reflexivity|]]].
  split; [exact B49 | split; [exact B50 | exact B500]].
Defined.

(** ** Stepped *)

Lemma stepped_call (s : State) :
  0 <= stepCount (mem s) < 100 ->
  (stepCount (mem s) = 99 ->
   stepCount (mem (stepped s)) = 0 /\
   currentFreqDelay (stepped s) =
   stepped_next (minDelay s) (maxDelay s) (step s) (currentFreqDelay s)) /\
  (stepCount (mem s) < 99 ->
   stepCount (mem (stepped s)) = stepCount (mem s) + 1 /\
   currentFreqDelay (stepped s) = currentFreqDelay s).
Proof.
  intros Hc. unfold stepped. rewrite u16_small by lia.
  destruct (Z.geb_spec (stepCount (mem s) + 1) 100);
    repeat split; intros; try reflexivity; lia.
Qed.

Lemma stepped_next_in_band (r : bool) (st p : Z) :
  rangeParam r 0 <= stepped_next (rangeParam r 0) (rangeParam r 1) st p
  <= rangeParam r 1.
Proof.
  unfold stepped_next. destruct r; band_arith.
Qed.

(** X17. Under Stepped the counter counts calls modulo 100 and only every
    100th call writes the period: after [n] calls the period is the start
    value advanced [n / 100] times.  One advance of an in-band period [p] is
    [min + (p - min + step) mod (max - min + 1)], a move of [step] places
    round the band, and from any period whatever the result lies in the
    band. *)
Theorem stepped_advances (s : State) (n : nat) :
  currentPattern s = 5 -> stepCount (mem s) = 0 ->
  let lo := minDelay s in
  let hi := maxDelay s in
  let s' := iter n update_sweep s in
  stepCount (mem s') = Z.of_nat n mod 100 /\
  currentFreqDelay s' =
    iter (Z.to_nat (Z.of_nat n / 100)) (stepped_next lo hi (step s))
         (currentFreqDelay s) /\
  (forall p, lo <= stepped_next lo hi (step s) p <= hi) /\
  (forall p, 0 <= currentSpeed s <= 4 -> lo <= p <= hi ->
     stepped_next lo hi (step s) p = lo + (p - lo + step s) mod (hi - lo + 1)).
Proof.
  intros Hp H0 lo hi.
  assert (I : forall k, let t := iter k update_sweep s in
              currentPattern t = 5 /\ currentRange t = currentRange s /\
              currentSpeed t = currentSpeed s /\
              stepCount (mem t) = Z.of_nat k mod 100 /\
              currentFreqDelay t =
              iter (Z.to_nat (Z.of_nat k / 100)) (stepped_next lo hi (step s))
                   (currentFreqDelay s)).
  { induction k as [|k IH]; [cbn [iter]; repeat split; assumption|].
    cbv zeta in *. cbn [iter]. destruct IH as (IP & IR & IV & IC & ID).
    set (t := iter k update_sweep s) in *.
    destruct (update_sweep_frame t) as (_ & FR & FP & FS & _).
    rewrite FR, FP, FS.
    split; [exact IP | split; [exact IR | split; [exact IV|]]].
    assert (E : update_sweep t = stepped t).
    { destruct (dispatch t); try congruence; lia. }
    rewrite E.
    assert (Hb : 0 <= stepCount (mem t) < 100)
      by (rewrite IC; apply Z.mod_pos_bound; lia).
    destruct (stepped_call t Hb) as (S99 & Slt).
    replace (Z.of_nat (S k)) with (Z.of_nat k + 1) by lia.
    assert (Hlo : minDelay t = lo) by (unfold lo, minDelay; now rewrite IR).
    assert (Hhi : maxDelay t = hi) by (unfold hi, maxDelay; now rewrite IR).
    assert (Hst : step t = step s) by (unfold step; now rewrite IV).
    destruct (Z.eq_dec (stepCount (mem t)) 99) as [E99|N99].
    - destruct (S99 E99) as [C D]. rewrite C, D, Hlo, Hhi, Hst, ID.
      rewrite E99 in IC.
      assert (Q : (Z.of_nat k + 1) / 100 = Z.of_nat k / 100 + 1)
        by (Z.to_euclidean_division_equations; lia).
      assert (R : (Z.of_nat k + 1) mod 100 = 0)
        by (Z.to_euclidean_division_equations; lia).
      rewrite Q, R, Z2Nat.inj_add by (try apply Z.div_pos; lia).
      rewrite Nat.add_comm. split; reflexivity.
    - destruct (Slt ltac:(lia)) as [C D]. rewrite C, D, ID.
      assert (Q : (Z.of_nat k + 1) / 100 = Z.of_nat k / 100)
        by (Z.to_euclidean_division_equations; lia).
      assert (R : (Z.of_nat k + 1) mod 100 = Z.of_nat k mod 100 + 1)
        by (Z.to_euclidean_division_equations; lia).
      rewrite Q, R, IC. split; reflexivity. }
  intros s'. destruct (I n) as (_ & _ & _ & C & D).
  split; [exact C | split; [exact D | split]].
  - intros p. apply stepped_next_in_band.
  - intros p Hv Hb. pose proof (step_range s ltac:(lia)) as Hst.
    unfold lo, hi, minDelay, maxDelay, stepped_next in *.
    destruct (currentRange s); cbv [rangeParam bit_index rangeParams nth] in *.
    + change (u16 (18 - 9 + 1)) with 10. change (18 - 9 + 1) with 10.
      unfold u16. Z.to_euclidean_division_equations. lia.
    + change (u16 (50 - 25 + 1)) with 26. change (50 - 25 + 1) with 26.
      unfold u16. Z.to_euclidean_division_equations. lia.
Qed.

Lemma stepped_advances_witness :
  let s := set_currentSpeed 4 (set_currentFreqDelay 47
             (set_currentPattern 5 main_init)) in
  currentPattern s = 5 /\ stepCount (mem s) = 0 /\
  currentFreqDelay (iter 99 update_sweep s) = 47 /\
  currentFreqDelay (iter 100 update_sweep s) = 29 /\
  currentFreqDelay (iter 200 update_sweep s) = 37.
Proof.
  intros s.
  destruct (stepped_advances s 99 eq_refl eq_refl) as (_ & D99 & _).
  destruct (stepped_advances s 100 eq_refl eq_refl) as (_ & D100 & _).
  destruct (stepped_advances s 200 eq_refl eq_refl) as (_ & D200 & _).
  split; [reflexivity | split; [reflexivity|]].
  split; [exact D99 | split; [exact D100 | exact D200]].
Defined.

(** ** Random Walk *)

(** X18. Under Random Walk only every 20th call draws a random byte and
    writes the period; from an in-band period that call moves it by at most
    2 and keeps it in the band, and the 19 calls in between touch neither
    the period nor the seed. *)
Theorem random_walk_small_steps (s : State) :
  currentPattern s = 10 -> 0 <= walkCount (mem s) < 20 ->
  (walkCount (mem s) = 19 ->
   walkCount (mem (update_sweep s)) = 0 /\
   seed (update_sweep s) = rand_next (seed s) /\
   (in_band s ->
    in_band (update_sweep s) /\
    -2 <= currentFreqDelay (update_sweep s) - currentFreqDelay s <= 2)) /\
  (walkCount (mem s) < 19 ->
   walkCount (mem (update_sweep s)) = walkCount (mem s) + 1 /\
   seed (update_sweep s) = seed s /\
   currentFreqDelay (update_sweep s) = currentFreqDelay s).
Proof.
  intros Hp Hc.
  assert (E : update_sweep s = random_walk s).
  { destruct (dispatch s); try congruence; lia. }
  rewrite E. unfold random_walk, simple_rand. rewrite u16_small by lia.
  destruct (Z.geb_spec (walkCount (mem s) + 1) 20) as [G|G]; split; intros W;
    try lia.
  - split; [reflexivity | split; [reflexivity|]]. intros Hb.
    split_inner_ifs; band_fields; destruct (currentRange s);
      cbv [rangeParam bit_index rangeParams nth u16 u8] in *;
      Z.to_euclidean_division_equations; lia.
  - repeat split; reflexivity.
Qed.

Lemma random_walk_small_steps_witness :
  let s := upd_mem (set_walkCount 19) (set_currentPattern 10 main_init) in
  currentPattern s = 10 /\ 0 <= walkCount (mem s) < 20 /\
  walkCount (mem s) = 19 /\ in_band s /\
  seed (update_sweep s) = 38526 /\ in_band (update_sweep s).
Proof.
  intros s.
  assert (Hc : 0 <= walkCount (mem s) < 20) by (change (0 <= 19 < 20); lia).
  assert (Hb : in_band s) by (change (25 <= 37 <= 50); lia).
  destruct (proj1 (random_walk_small_steps s eq_refl Hc) eq_refl) as (_ & Sd & B).
  split; [reflexivity | split; [exact Hc | split; [reflexivity | split;
    [exact Hb | split; [exact Sd | exact (proj1 (B Hb))]]]]].
Defined.

(** ** Getting back into the band *)

(** X19. Whatever period another pattern has left behind, in the band or
    not, these calls of [update_sweep] return an in-band period: every call
    of Heartbeat, the 100th call of Stepped and of Siren, the 20th call of
    Random Walk, and a call of Random whose first draw is below 20. *)
Theorem band_reentry (s : State) :
  (currentPattern s = 7 -> 0 <= hbCount (mem s) < 600 ->
   in_band (update_sweep s)) /\
  (currentPattern s = 5 -> stepCount (mem s) = 99 -> in_band (update_sweep s)) /\
  (currentPattern s = 8 -> sirenCount (mem s) = 99 -> in_band (update_sweep s)) /\
  (currentPattern s = 10 -> walkCount (mem s) = 19 -> in_band (update_sweep s)) /\
  (currentPattern s = 3 -> fst (simple_rand s) < 20 -> in_band (update_sweep s)).
Proof.
  split; [|split; [|split; [|split]]]; intros Hp Hc.
  - assert (E : update_sweep s = heartbeat s)
      by (destruct (dispatch s); try congruence; lia).
    rewrite E. unfold heartbeat. rewrite u16_small by lia.
    split_ifs; band_fields; destruct (currentRange s); band_arith.
  - assert (E : update_sweep s = stepped s)
      by (destruct (dispatch s); try congruence; lia).
    rewrite E. unfold stepped. rewrite Hc.
    change (u16 (99 + 1) >=? 100) with true.
    band_fields. apply stepped_next_in_band.
  - assert (E : update_sweep s = siren s)
      by (destruct (dispatch s); try congruence; lia).
    rewrite E. unfold siren, siren_toggle. rewrite Hc.
    change (u16 (99 + 1) >=? 100) with true.
    split_ifs; band_fields; destruct (currentRange s); band_arith.
  - assert (E : update_sweep s = random_walk s)
      by (destruct (dispatch s); try congruence; lia).
    rewrite E. unfold random_walk, simple_rand. rewrite Hc.
    change (u16 (19 + 1) >=? 20) with true.
    split_ifs; band_fields; destruct (currentRange s); band_arith.
  - assert (E : update_sweep s = random s)
      by (destruct (dispatch s); try congruence; lia).
    rewrite E. unfold random. unfold simple_rand at 1.
    unfold simple_rand in Hc. cbn [fst] in Hc.
    destruct (Z.ltb_spec (u8 (Z.land (rand_next (seed s)) 255)) 20); [|lia].
    unfold simple_rand.
    band_fields; destruct (currentRange s); band_arith.
Qed.

Lemma band_reentry_witness :
  let s := set_currentFreqDelay 65525 (set_currentPattern 7 main_init) in
  currentPattern s = 7 /\ 0 <= hbCount (mem s) < 600 /\ ~ in_band s /\
  in_band (update_sweep s).
Proof.
  intros s.
  assert (Hc : 0 <= hbCount (mem s) < 600) by (change (0 <= 0 < 600); lia).
  split; [reflexivity | split; [exact Hc | split]].
  - intros [_ H]. apply H. reflexivity.
  - exact (proj1 (band_reentry s) eq_refl Hc).
Defined.

(** ** Chirps without wrap-around *)

(** X20. In the low band at any speed, and in the high band at speeds 0
    to 2, the falling step of Chirps never wraps: the period is above [min],
    hence at least [3 * step], and the call leaves the plain difference. *)
Theorem chirps_no_wrap (s : State) :
  currentPattern s = 9 -> chirpState (mem s) = 0 ->
  0 <= currentSpeed s <= 4 ->
  minDelay s < currentFreqDelay s < 65536 ->
  currentRange s = false \/ currentSpeed s <= 2 ->
  3 * step s <= currentFreqDelay s /\
  currentFreqDelay (update_sweep s) = currentFreqDelay s - 3 * step s /\
  0 <= currentFreqDelay (update_sweep s) < currentFreqDelay s.
Proof.
  intros Hp H0 Hv Hd Hc.
  assert (E : update_sweep s = chirps s)
    by (destruct (dispatch s); try congruence; lia).
  assert (H3 : 3 * step s <= currentFreqDelay s).
  { unfold step, minDelay in *.
    assert (C : currentSpeed s = 0 \/ currentSpeed s = 1 \/ currentSpeed s = 2 \/
                currentSpeed s = 3 \/ currentSpeed s = 4) by lia.
    destruct (currentRange s);
      cbv [rangeParam bit_index rangeParams nth] in Hd;
      destruct C as [C|[C|[C|[C|C]]]]; rewrite C in *;
      cbv [speedStep speedSteps nth Z.to_nat Pos.to_nat Pos.iter_op Nat.add];
      destruct Hc; try discriminate; lia. }
  pose proof (step_range s ltac:(lia)) as Hst.
  rewrite E. unfold chirps. rewrite H0. cbn [Z.eqb].
  destruct (Z.gtb_spec (currentFreqDelay s) (minDelay s)); [|lia].
  rewrite s16_small by lia. cbn [currentFreqDelay set_currentFreqDelay].
  rewrite u16_small by lia. repeat split; lia.
Qed.

Lemma chirps_no_wrap_witness :
  let s := set_currentSpeed 4 (set_currentFreqDelay 26
             (set_currentPattern 9 main_init)) in
  currentPattern s = 9 /\ chirpState (mem s) = 0 /\
  0 <= currentSpeed s <= 4 /\ minDelay s < currentFreqDelay s < 65536 /\
  currentRange s = false /\
  currentFreqDelay (update_sweep s) = 26 - 3 * 8.
Proof.
  intros s.
  assert (Hv : 0 <= currentSpeed s <= 4) by (change (0 <= 4 <= 4); lia).
  assert (Hd : minDelay s < currentFreqDelay s < 65536)
    by (change (25 < 26 < 65536); lia).
  destruct (chirps_no_wrap s eq_refl eq_refl Hv Hd (or_introl eq_refl))
    as (_ & D & _).
  repeat (split; [assumption || reflexivity|]). exact D.
Defined.

(** X21. A whole chirp, in every band and speed but the high band at
    speed 4: from the period at [max] in the falling sub-state, [k =
    ceil((max - min) / (3 * step))] calls bring the period to or below
    [min], one call enters the pause, and 301 calls later the period is at
    [max] again and the whole state is restored.  The cycle is [k + 302]
    calls long and the period never leaves the range from 0 to [max]. *)
Theorem chirps_cycle (s : State) :
  currentPattern s = 9 -> 0 <= currentSpeed s <= 4 ->
  chirpState (mem s) = 0 -> chirpCount (mem s) = 0 ->
  currentFreqDelay s = maxDelay s ->
  currentRange s = false \/ currentSpeed s <= 3 ->
  let k := Z.to_nat (cdiv (maxDelay s - minDelay s) (3 * step s)) in
  currentFreqDelay (iter k update_sweep s) <= minDelay s /\
  chirpState (mem (iter k update_sweep s)) = 0 /\
  chirpState (mem (iter (S k) update_sweep s)) = 1 /\
  periods_within (maxDelay s) (k + 302) update_sweep s = true /\
  iter (k + 302) update_sweep s = s.
Proof.
  intros Hp Hv H0 Hc Hd Hcase. enumerate_configs s Hv;
    try (exfalso; destruct Hcase; [discriminate | lia]);
    vm_compute;
    (split; [discriminate | repeat split; reflexivity]).
Qed.

Lemma chirps_cycle_witness :
  let s := set_currentFreqDelay 50 (set_currentPattern 9 main_init) in
  currentPattern s = 9 /\ 0 <= currentSpeed s <= 4 /\
  chirpState (mem s) = 0 /\ chirpCount (mem s) = 0 /\
  currentFreqDelay s = maxDelay s /\ currentRange s = false /\
  currentFreqDelay (iter 9 update_sweep s) = 23 /\
  iter 311 update_sweep s = s.
Proof.
  intros s.
  assert (Hv : 0 <= currentSpeed s <= 4) by (change (0 <= 0 <= 4); lia).
  destruct (chirps_cycle s eq_refl Hv eq_refl eq_refl eq_refl (or_introl eq_refl))
    as (_ & _ & _ & _ & R).
  repeat (split; [assumption || reflexivity|]). exact R.
Defined.

(** ** The period of the random bytes *)

Lemma rand_next_low8 (sd : Z) :
  rand_next sd mod 256 = byte_next (sd mod 256).
Proof.
  unfold byte_next.
  pose proof (rand_next_low15 sd) as H.
  assert (E : rand_next sd mod 256 = (sd * 1103515245 + 12345) mod 256).
  { apply low8_of_low15. exact H. }
  rewrite E. Z.to_euclidean_division_equations. lia.
Qed.

Lemma rand_calls_orbit (n : nat) : forall s,
  fst (rand_calls n s) = byte_orbit n (seed s mod 256).
Proof.
  induction n as [|n IH]; intros s; [reflexivity|].
  cbn [rand_calls byte_orbit]. unfold simple_rand.
  specialize (IH (set_seed (rand_next (seed s)) s)).
  destruct (rand_calls n (set_seed (rand_next (seed s)) s)) as [rs s2].
  cbn [fst seed set_seed] in *. rewrite IH, rand_next_low8.
  f_equal. unfold u8. rewrite land_255, Z.mod_mod by lia.
  apply rand_next_low8.
Qed.

Lemma iter_comm {A : Type} (f : A -> A) (n : nat) (a : A) :
  iter n f (f a) = f (iter n f a).
Proof. induction n as [|n IH]; [reflexivity|]. cbn [iter]. now rewrite IH. Qed.

Lemma byte_orbit_app (n m : nat) : forall b,
  byte_orbit (n + m) b = byte_orbit n b ++ byte_orbit m (iter n byte_next b).
Proof.
  induction n as [|n IH]; intros b; [reflexivity|].
  cbn [Nat.add byte_orbit app iter]. rewrite IH, iter_comm. reflexivity.
Qed.

Lemma byte_orbit_length (n : nat) : forall b, length (byte_orbit n b) = n.
Proof. induction n as [|n IH]; intros b; [reflexivity|]. cbn. now rewrite IH. Qed.

Lemma in_all_bytes (v : Z) : 0 <= v < 256 <-> In v all_bytes.
Proof.
  unfold all_bytes. rewrite in_map_iff. split.
  - intros H. exists (Z.to_nat v). split; [lia | apply in_seq; lia].
  - intros (k & <- & Hk). apply in_seq in Hk. lia.
Qed.

Lemma all_bytes_NoDup : NoDup all_bytes.
Proof.
  unfold all_bytes. generalize (seq_NoDup 256 0).
  generalize (seq 0 256) as l. intros l H.
  induction H as [|x l Hx Hl IH]; cbn [map]; constructor; [|exact IH].
  rewrite in_map_iff. intros (y & E & Hy).
  apply Nat2Z.inj in E. subst y. contradiction.
Qed.

Lemma all_full_cycle : forallb full_cycle all_bytes = true.
Proof. vm_compute. reflexivity. Qed.

(** X22. The byte returned by [simple_rand] determines the next one,
    [next = (109 * byte + 57) mod 256], so the returned bytes repeat with
    period 256 from any seed, and any 256 successive calls return every byte
    value exactly once. *)
Theorem rand_bytes_period_256 (s : State) :
  let l := fst (rand_calls 256 s) in
  length l = 256%nat /\
  (forall v, 0 <= v < 256 -> In v l) /\
  NoDup l /\
  fst (rand_calls 512 s) = l ++ l /\
  fst (rand_calls 2 s)
  = [fst (simple_rand s); byte_next (fst (simple_rand s))].
Proof.
  intros l. unfold l. rewrite !rand_calls_orbit.
  set (b := seed s mod 256).
  assert (Hb : 0 <= b < 256) by (apply Z.mod_pos_bound; lia).
  pose proof (proj1 (forallb_forall full_cycle all_bytes) all_full_cycle b
                (proj1 (in_all_bytes b) Hb)) as F.
  unfold full_cycle in F. cbv zeta in F.
  apply andb_prop in F. destruct F as [Fs Fe].
  apply Z.eqb_eq in Fe.
  assert (Sur : forall v, 0 <= v < 256 -> In v (byte_orbit 256 b)).
  { intros v Hv.
    pose proof (proj1 (forallb_forall _ all_bytes) Fs v
                  (proj1 (in_all_bytes v) Hv)) as Ev.
    apply existsb_exists in Ev. destruct Ev as (x & Hx & Ex).
    apply Z.eqb_eq in Ex. subst x. exact Hx. }
  split; [apply byte_orbit_length | split; [exact Sur | split; [|split]]].
  - apply NoDup_incl_NoDup with (l := all_bytes).
    + apply all_bytes_NoDup.
    + rewrite byte_orbit_length. unfold all_bytes.
      rewrite length_map, length_seq. lia.
    + intros v Hv. apply Sur, in_all_bytes, Hv.
  - change 512%nat with (256 + 256)%nat. rewrite byte_orbit_app, Fe. reflexivity.
  - cbn [byte_orbit]. unfold simple_rand. cbn [fst].
    unfold u8. rewrite land_255, Z.mod_mod by lia.
    rewrite rand_next_low8. reflexivity.
Qed.

(** ** Status LEDs *)

Lemma write_other (addr a : Z) (v : bool) (p : Pins) :
  a <> addr -> write addr v p a = p a.
Proof. intros H. unfold write. destruct (Z.eqb_spec a addr); [contradiction | reflexivity]. Qed.

Lemma pattern_is_not_other (s : State) (k : Z) :
  currentPattern s <> k -> pattern_is_not s k = true.
Proof.
  intros H. unfold pattern_is_not.
  destruct (Z.eqb_spec (currentPattern s) k); [contradiction | reflexivity].
Qed.

(** The level each LED pin is left at. *)
Lemma updateStatusLEDs_pins (s : State) (p : Pins) :
  updateStatusLEDs s p RANGE_LED = negb (currentRange s) /\
  updateStatusLEDs s p UP_LED = pattern_is_not s 5 /\
  updateStatusLEDs s p DOWN_LED = pattern_is_not s 7 /\
  updateStatusLEDs s p ZIGZAG_LED = pattern_is_not s 8 /\
  updateStatusLEDs s p RAND_LED = pattern_is_not s 9 /\
  updateStatusLEDs s p PULSE_LED = pattern_is_not s 10 /\
  updateStatusLEDs s p TRIANGLE_LED = pattern_is_not s 6.
Proof. repeat split; reflexivity. Qed.

(** X23. The LED pins share addresses: the pins of the first five pattern
    LEDs are assigned a second time, for patterns 5 and 7 to 10, and the
    later assignment is the one that stays.  After [updateStatusLEDs] each
    of these pins is low only for the later pattern, the triangle pin is low
    only for pattern 6, so no pattern LED is lit for patterns 0 to 4; the
    range pin is the inverted band bit, and no other pin is written. *)
Theorem status_leds_overwritten (s : State) (p : Pins) :
  let q := updateStatusLEDs s p in
  q RANGE_LED = negb (currentRange s) /\
  (q UP_LED = pattern_is_not s 5 /\ q DOWN_LED = pattern_is_not s 7 /\
   q ZIGZAG_LED = pattern_is_not s 8 /\ q RAND_LED = pattern_is_not s 9 /\
   q PULSE_LED = pattern_is_not s 10 /\ q TRIANGLE_LED = pattern_is_not s 6) /\
  (0 <= currentPattern s <= 4 ->
   forall a, In a [UP_LED; DOWN_LED; ZIGZAG_LED; RAND_LED; PULSE_LED;
                   TRIANGLE_LED] -> q a = true) /\
  (forall a, ~ In a led_pins -> q a = p a).
Proof.
  cbv zeta.
  destruct (updateStatusLEDs_pins s p) as (ER & E0 & E1 & E2 & E3 & E4 & E5).
  split; [exact ER | split; [repeat split; assumption | split]].
  - intros Hp a Ha.
    assert (N5 : currentPattern s <> 5) by (clear - Hp; lia).
    assert (N6 : currentPattern s <> 6) by (clear - Hp; lia).
    assert (N7 : currentPattern s <> 7) by (clear - Hp; lia).
    assert (N8 : currentPattern s <> 8) by (clear - Hp; lia).
    assert (N9 : currentPattern s <> 9) by (clear - Hp; lia).
    assert (N10 : currentPattern s <> 10) by (clear - Hp; lia).
    cbn [In] in Ha.
    destruct Ha as [Ha|[Ha|[Ha|[Ha|[Ha|[Ha|[]]]]]]]; rewrite <- Ha.
    + rewrite E0. apply pattern_is_not_other, N5.
    + rewrite E1. apply pattern_is_not_other, N7.
    + rewrite E2. apply pattern_is_not_other, N8.
    + rewrite E3. apply pattern_is_not_other, N9.
    + rewrite E4. apply pattern_is_not_other, N10.
    + rewrite E5. apply pattern_is_not_other, N6.
  - intros a Ha. unfold updateStatusLEDs, writes. cbn [fold_left fst snd].
    cbn [In led_pins] in Ha.
    repeat (rewrite write_other; [| intros Ea; apply Ha; rewrite Ea; cbv; tauto]).
    reflexivity.
Qed.

Lemma status_leds_overwritten_witness :
  let q := updateStatusLEDs main_init (fun _ => false) in
  0 <= currentPattern main_init <= 4 /\ q UP_LED = true /\
  q (0xA0 + 5) = false.
Proof.
  intros q.
  assert (Hp : 0 <= currentPattern main_init <= 4) by (change (0 <= 0 <= 4); lia).
  destruct (status_leds_overwritten main_init (fun _ => false))
    as (_ & _ & Off & Other).
  split; [exact Hp | split].
  - apply (Off Hp). left. reflexivity.
  - apply (Other (0xA0 + 5)). cbv. intuition discriminate.
Defined.

Lemma keil_updateStatusLEDs_pins (s : State) (p : Pins) :
  Keil.updateStatusLEDs s p Keil.POWER_LED = negb (isActive s) /\
  Keil.updateStatusLEDs s p Keil.RANGE_LED = negb (currentRange s) /\
  Keil.updateStatusLEDs s p Keil.UP_LED = pattern_is_not s 6 /\
  Keil.updateStatusLEDs s p Keil.DOWN_LED = pattern_is_not s 7 /\
  Keil.updateStatusLEDs s p Keil.ZIGZAG_LED = pattern_is_not s 8 /\
  Keil.updateStatusLEDs s p Keil.RAND_LED = pattern_is_not s 9 /\
  Keil.updateStatusLEDs s p Keil.PULSE_LED = pattern_is_not s 10 /\
  Keil.updateStatusLEDs s p Keil.STEP_LED = pattern_is_not s 5.
Proof. repeat split; reflexivity. Qed.

(** X24. The Keil build declares the pins differently and shows the same
    effect: the pins of the first five pattern LEDs are assigned again for
    patterns 6 to 10, so no pattern LED is lit for patterns 0 to 4; the step
    LED has a pin of its own, and the power LED shares the pin that the
    timer interrupt blinks as the speed LED. *)
Theorem keil_status_leds_overwritten (s : State) (p : Pins) :
  let q := Keil.updateStatusLEDs s p in
  q Keil.POWER_LED = negb (isActive s) /\ Keil.POWER_LED = Keil.SPEED_LED /\
  q Keil.RANGE_LED = negb (currentRange s) /\
  (q Keil.UP_LED = pattern_is_not s 6 /\ q Keil.DOWN_LED = pattern_is_not s 7 /\
   q Keil.ZIGZAG_LED = pattern_is_not s 8 /\ q Keil.RAND_LED = pattern_is_not s 9 /\
   q Keil.PULSE_LED = pattern_is_not s 10 /\ q Keil.STEP_LED = pattern_is_not s 5) /\
  (0 <= currentPattern s <= 4 ->
   forall a, In a [Keil.UP_LED; Keil.DOWN_LED; Keil.ZIGZAG_LED; Keil.RAND_LED;
                   Keil.PULSE_LED; Keil.STEP_LED] -> q a = true).
Proof.
  cbv zeta.
  destruct (keil_updateStatusLEDs_pins s p)
    as (EP & ER & E0 & E1 & E2 & E3 & E4 & E5).
  split; [exact EP | split; [reflexivity | split; [exact ER | split]]].
  - repeat split; assumption.
  - intros Hp a Ha.
    assert (N5 : currentPattern s <> 5) by (clear - Hp; lia).
    assert (N6 : currentPattern s <> 6) by (clear - Hp; lia).
    assert (N7 : currentPattern s <> 7) by (clear - Hp; lia).
    assert (N8 : currentPattern s <> 8) by (clear - Hp; lia).
    assert (N9 : currentPattern s <> 9) by (clear - Hp; lia).
    assert (N10 : currentPattern s <> 10) by (clear - Hp; lia).
    cbn [In] in Ha.
    destruct Ha as [Ha|[Ha|[Ha|[Ha|[Ha|[Ha|[]]]]]]]; rewrite <- Ha.
    + rewrite E0. apply pattern_is_not_other, N6.
    + rewrite E1. apply pattern_is_not_other, N7.
    + rewrite E2. apply pattern_is_not_other, N8.
    + rewrite E3. apply pattern_is_not_other, N9.
    + rewrite E4. apply pattern_is_not_other, N10.
    + rewrite E5. apply pattern_is_not_other, N5.
Qed.

Lemma keil_status_leds_overwritten_witness :
  let q := Keil.updateStatusLEDs Keil.main_init (fun _ => false) in
  0 <= currentPattern Keil.main_init <= 4 /\ q Keil.UP_LED = true.
Proof.
  intros q.
  assert (Hp : 0 <= currentPattern Keil.main_init <= 4)
    by (change (0 <= 0 <= 4); lia).
  destruct (keil_status_leds_overwritten Keil.main_init (fun _ => false))
    as (_ & _ & _ & _ & Off).
  split; [exact Hp|]. apply (Off Hp). left. reflexivity.
Defined.

(** ** The timer interrupt *)

Lemma write_same (addr : Z) (v : bool) (p : Pins) : write addr v p addr = v.
Proof. unfold write. rewrite Z.eqb_refl. reflexivity. Qed.

(** X25. While the device is on, the interrupt routine counts interrupts
    modulo 100 and flips the speed LED on every 100th; while it is off, each
    interrupt drives the LED pin high and keeps the count, so the blinking
    resumes from where it stopped.  It reloads the timer with [0xFC66] every
    time and writes no other pin. *)
Theorem speed_led_blinks (s : State) (t : Timer) (p : Pins) (n : nat) :
  0 <= msCount t < 100 ->
  let r := iter n (Timer0_ISR s) (t, p) in
  (isActive s = true ->
   msCount (fst r) = (msCount t + Z.of_nat n) mod 100 /\
   snd r SPEED_LED
   = xorb (p SPEED_LED) (Z.odd ((msCount t + Z.of_nat n) / 100))) /\
  (isActive s = false -> n <> O ->
   msCount (fst r) = msCount t /\ snd r SPEED_LED = true) /\
  (n <> O -> TH0 (fst r) = 0xFC /\ TL0 (fst r) = 0x66) /\
  (forall a, a <> SPEED_LED -> snd r a = p a).
Proof.
  intros Hc. cbv zeta.
  split; [|split; [|split]].
  - intros Ha. induction n as [|n IH].
    + cbn [iter fst snd Z.of_nat].
      rewrite Z.add_0_r, Z.mod_small, Z.div_small by exact Hc.
      cbn [Z.odd]. rewrite xorb_false_r. split; reflexivity.
    + cbn [iter]. destruct (iter n (Timer0_ISR s) (t, p)) as [t' p'].
      cbn [fst snd] in IH. destruct IH as [IC IL].
      replace (msCount t + Z.of_nat (S n)) with (msCount t + Z.of_nat n + 1)
        by lia.
      set (a := msCount t + Z.of_nat n) in *.
      pose proof (Z.mod_pos_bound a 100 ltac:(lia)) as Hb.
      destruct (divmod_succ 100 a ltac:(lia)) as [Dw Dn].
      unfold Timer0_ISR. rewrite Ha, IC, u16_small by lia.
      destruct (Z.geb_spec (a mod 100 + 1) 100) as [G|G]; cbn [fst snd msCount].
      * destruct (Dw ltac:(lia)) as [-> ->].
        rewrite write_same, IL, Z.odd_add. cbn [Z.odd].
        split; [reflexivity|].
        destruct (p SPEED_LED), (Z.odd (a / 100)); reflexivity.
      * destruct (Dn ltac:(lia)) as [-> ->]. split; [reflexivity | exact IL].
  - intros Ha Hn. destruct n as [|n]; [contradiction|]. clear Hn.
    induction n as [|n IH].
    + cbn [iter]. unfold Timer0_ISR. rewrite Ha. cbn [fst snd msCount].
      split; [reflexivity | apply write_same].
    + rewrite iter_S. destruct (iter (S n) (Timer0_ISR s) (t, p)) as [t' p'].
      cbn [fst snd] in IH. destruct IH as [IC IL].
      unfold Timer0_ISR. rewrite Ha. cbn [fst snd msCount].
      split; [exact IC | apply write_same].
  - intros Hn. destruct n as [|n]; [contradiction|].
    rewrite iter_S. destruct (iter n (Timer0_ISR s) (t, p)) as [t' p'].
    unfold Timer0_ISR.
    destruct (isActive s); [destruct (_ >=? _)|]; split; reflexivity.
  - intros a Ha. induction n as [|n IH]; [reflexivity|].
    rewrite iter_S. destruct (iter n (Timer0_ISR s) (t, p)) as [t' p'].
    cbn [snd] in IH. unfold Timer0_ISR.
    destruct (isActive s); [destruct (_ >=? _)|]; cbn [snd];
      rewrite ?write_other by exact Ha; exact IH.
Qed.

Lemma speed_led_blinks_witness :
  let s := set_isActive true main_init in
  let t := mkTimer 0 0 0 in
  let r := iter 250 (Timer0_ISR s) (t, fun _ => true) in
  0 <= msCount t < 100 /\ isActive s = true /\
  msCount (fst r) = 50 /\ snd r SPEED_LED = true.
Proof.
  intros s t r.
  assert (Hc : 0 <= msCount t < 100) by (change (0 <= 0 < 100); lia).
  destruct (speed_led_blinks s t (fun _ => true) 250 Hc) as (On & _).
  destruct (On eq_refl) as [C L].
  split; [exact Hc | split; [reflexivity | split; [exact C | exact L]]].
Defined.

(** ** The delay loop *)

Lemma iter_plus (c : Z) (n : nat) (a : Z) :
  iter n (fun k => k + c) a = a + Z.of_nat n * c.
Proof.
  induction n as [|n IH]; [cbn [iter Z.of_nat]; lia|].
  rewrite iter_S, IH, Nat2Z.inj_succ. ring.
Qed.

(** A counting loop whose body always returns runs its body once for each
    value of the counter below the limit, given fuel for its tests. *)
Lemma for_loop_counts {A : Type} (g : A -> A) (body : A -> option A)
    (limit : Z) :
  (forall a, body a = Some (g a)) -> limit < 65536 ->
  forall (n : nat) (i : Z) (a : A) (fuel : nat),
    0 <= i -> i + Z.of_nat n = limit -> (n < fuel)%nat ->
    for_loop fuel i limit body a = Some (limit, iter n g a).
Proof.
  intros Hbody Hl. induction n as [|n IH]; intros i a fuel Hi Hn Hf.
  - destruct fuel as [|f]; [lia|]. cbn [for_loop iter].
    destruct (Z.ltb_spec i limit); [lia|]. f_equal. f_equal. lia.
  - destruct fuel as [|f]; [lia|]. cbn [for_loop].
    destruct (Z.ltb_spec i limit); [|lia].
    rewrite Hbody, u16_small by lia.
    rewrite (IH (i + 1) (g a) f) by lia.
    rewrite iter_comm. reflexivity.
Qed.

(** X26. [delay_ms(ms)] returns for every 16-bit argument, with its outer
    counter at [ms], after running the empty statement of the inner loop
    exactly [120 * ms] times; the debounce delay of 20 takes 2400 of
    them. *)
Theorem delay_ms_counts (fuel : nat) (ms : Z) :
  0 <= ms < 65536 -> (Z.to_nat ms < fuel)%nat -> (120 < fuel)%nat ->
  delay_ms fuel ms = Some (ms, 120 * ms).
Proof.
  intros Hms Hf Hg. unfold delay_ms.
  assert (Inner : forall n,
            match for_loop fuel 0 120 (fun k => Some (k + 1)) n with
            | Some (_, n') => Some n'
            | None => None
            end = Some (n + 120)).
  { intros n.
    rewrite (for_loop_counts (fun k => k + 1) (fun k => Some (k + 1)) 120
               ltac:(reflexivity) ltac:(lia) 120 0 n fuel) by lia.
    rewrite iter_plus.
    replace (n + Z.of_nat 120 * 1) with (n + 120) by lia. reflexivity. }
  rewrite (for_loop_counts (fun n => n + 120) _ ms Inner ltac:(lia)
             (Z.to_nat ms) 0 0 fuel) by lia.
  rewrite iter_plus, Z2Nat.id by lia.
  replace (0 + ms * 120) with (120 * ms) by lia. reflexivity.
Qed.

Lemma delay_ms_counts_witness :
  0 <= 20 < 65536 /\ (Z.to_nat 20 < 200)%nat /\ (120 < 200)%nat /\
  delay_ms 200 20 = Some (20, 2400).
Proof.
  assert (H1 : 0 <= 20 < 65536) by lia.
  assert (H2 : (Z.to_nat 20 < 200)%nat) by lia.
  assert (H3 : (120 < 200)%nat) by lia.
  split; [exact H1 | split; [exact H2 | split; [exact H3|]]].
  exact (delay_ms_counts 200 20 H1 H2 H3).
Defined.
